(** * TrialHandler: sequencing, iteration and snapshots of trials

    A shallow embedding of [data/TrialHandler.js] (PsychoJS 2021.2.0) and
    the properties of its trial cursor.

    Conventions of the embedding:
    - a JavaScript number that the handler uses as a counter is a [Z]
      (all counters stay integral and far below 2^53, where doubles are
      exact); [undefined] in a numeric slot is [None];
    - the handler object is a record, threaded explicitly through every
      method; a method that can throw returns a [result];
    - the snapshot objects created by [getSnapshot] live in the handler's
      [_snapshots] array and are shared with the caller: a caller holds a
      snapshot by its position in that array;
    - a trial (an element of the condition list) is [undefined], [null] or
      an object, given by its enumerable fields in [for ... in] order. *)

From Stdlib Require Import ZArith QArith Qround.
From stdpp Require Import base list gmap strings pretty.

Open Scope Z_scope.

(** ** JavaScript values and outcomes *)

(** The three arrow functions that [getSnapshot] stores in a snapshot. *)
Inductive closure :=
  | GetCurrentTrialAt (currentIndex : option Z)
  | GetTrialOfHandler
  | AddDataOfHandler.

Inductive value :=
  | VUndefined
  | VNull
  | VBool (b : bool)
  | VNum (z : Z)
  | VStr (s : string)
  | VHandler                     (* the reference [this] of the handler *)
  | VFun (c : closure)
  | VNames (l : list string).    (* an array of attribute names *)

Inductive trial :=
  | TUndefined
  | TNull
  | TObj (fields : list (string * value)).

Inductive exn :=
  | RangeError
  | TypeError
  | ReferenceError (ident : string)
  | Thrown (origin context error : string).

(** [Overwritten p]: the call goes on with the member [p] of the handler
    (a method, an accessor, a counter that would stop being a number) or
    the field [p] of a snapshot replaced by a value of another kind; the
    embedding keeps those typed and stops there. *)
Inductive result (A : Type) :=
  | Ok (a : A)
  | Throw (e : exn)
  | Overwritten (prop : string).
Arguments Ok {A} a.
Arguments Throw {A} e.
Arguments Overwritten {A} prop.

#[global] Instance result_ret : MRet result := fun A a => Ok a.
#[global] Instance result_bind : MBind result := fun A B k r =>
  match r with
  | Ok a => k a
  | Throw e => Throw e
  | Overwritten p => Overwritten p
  end.

#[global] Instance closure_eq_dec : EqDecision closure.
Proof. solve_decision. Defined.
#[global] Instance value_eq_dec : EqDecision value.
Proof. solve_decision. Defined.
#[global] Instance trial_eq_dec : EqDecision trial.
Proof. solve_decision. Defined.

(** [a[i]] for a JavaScript number [i]: [undefined] outside the array. *)
Definition lookupZ {A} (a : list A) (i : Z) : option A :=
  if i <? 0 then None else a !! Z.to_nat i.

(** [trialList[i]], where [i] may itself be [undefined]. *)
Definition trial_at (a : list trial) (i : option Z) : trial :=
  match i with
  | Some z => default TUndefined (lookupZ a z)
  | None => TUndefined
  end.

(** [o[k]] on a trial object. *)
Fixpoint field (fs : list (string * value)) (k : string) : value :=
  match fs with
  | [] => VUndefined
  | (k', v) :: fs' => if decide (k' = k) then v else field fs' k
  end.

(** ** The random source and the shuffle *)

(** The generator built by [setSeed]: the stream of floats that
    [seedrandom(seed)] produces, and how many of them were drawn. *)
Record RandomSource := {
  draws : nat -> Q;
  consumed : nat
}.

(** [[a[i], a[j]] = [a[j], a[i]]] for two cells of the array, as the
    cells of the shuffle are when its draws lie in [0, 1); a cell past
    the end is not followed (the array is left as it is). *)
Definition swap (a : list Z) (i j : nat) : list Z :=
  match a !! i, a !! j with
  | Some x, Some y => <[j := x]> (<[i := y]> a)
  | _, _ => a
  end.

Fixpoint shuffle_from (i : nat) (a : list Z) (g : RandomSource)
  : list Z * RandomSource :=
  match i with
  | O => (a, g)
  | S i' =>
      let j := Z.to_nat (Qfloor (draws g (consumed g) * inject_Z (Z.of_nat i + 1))) in
      shuffle_from i' (swap a i j)
        {| draws := draws g; consumed := S (consumed g) |}
  end.

(** Modelled from the spec: [util.shuffle] (util/Util.js is not among the
    sources). "Standard in-place Fisher-Yates: for index i from length-1
    down to 1, draw j = floor(rng.next() * (i+1)), swap elements at i and
    j." A draw is taken as an exact rational. *)
Definition shuffle (a : list Z) (g : RandomSource) : list Z * RandomSource :=
  shuffle_from (length a - 1)%nat a g.

(** ** The handler *)

Inductive Method :=
  | SEQUENTIAL
  | RANDOM
  | FULL_RANDOM      (* also reachable as [Method.FULLRANDOM] *)
  | OTHER.           (* any value that is none of the three symbols *)

Module TrialHandler.

Record t := {
  trialList : list trial;
  nReps : Z;
  method : Method;
  name : value;
  _randomNumberGenerator : RandomSource;
  nStim : Z;
  nTotal : Z;
  nRemaining : Z;
  thisRepN : Z;
  thisTrialN : Z;
  thisN : Z;
  thisIndex : option Z;
  ran : Z;
  order : Z;
  _snapshots : list (gmap string value);
  _trialSequence : list (list Z);
  thisTrial : trial;
  _finished : value;
  attributes : gmap string value;   (* properties added by [fromSnapshot] *)
  warnings : list string            (* lines sent to [psychoJS.logger.warn] *)
}.

(** Field assignments [this.f = v]. *)
Definition set_trialList v h :=
  {| trialList := v; nReps := nReps h; method := method h; name := name h;
     _randomNumberGenerator := _randomNumberGenerator h; nStim := nStim h;
     nTotal := nTotal h; nRemaining := nRemaining h; thisRepN := thisRepN h;
     thisTrialN := thisTrialN h; thisN := thisN h; thisIndex := thisIndex h;
     ran := ran h; order := order h; _snapshots := _snapshots h;
     _trialSequence := _trialSequence h; thisTrial := thisTrial h;
     _finished := _finished h; attributes := attributes h;
     warnings := warnings h |}.
Definition set_rng v h :=
  {| trialList := trialList h; nReps := nReps h; method := method h; name := name h;
     _randomNumberGenerator := v; nStim := nStim h;
     nTotal := nTotal h; nRemaining := nRemaining h; thisRepN := thisRepN h;
     thisTrialN := thisTrialN h; thisN := thisN h; thisIndex := thisIndex h;
     ran := ran h; order := order h; _snapshots := _snapshots h;
     _trialSequence := _trialSequence h; thisTrial := thisTrial h;
     _finished := _finished h; attributes := attributes h;
     warnings := warnings h |}.
Definition set_nStim v h :=
  {| trialList := trialList h; nReps := nReps h; method := method h; name := name h;
     _randomNumberGenerator := _randomNumberGenerator h; nStim := v;
     nTotal := nTotal h; nRemaining := nRemaining h; thisRepN := thisRepN h;
     thisTrialN := thisTrialN h; thisN := thisN h; thisIndex := thisIndex h;
     ran := ran h; order := order h; _snapshots := _snapshots h;
     _trialSequence := _trialSequence h; thisTrial := thisTrial h;
     _finished := _finished h; attributes := attributes h;
     warnings := warnings h |}.
Definition set_nTotal v h :=
  {| trialList := trialList h; nReps := nReps h; method := method h; name := name h;
     _randomNumberGenerator := _randomNumberGenerator h; nStim := nStim h;
     nTotal := v; nRemaining := nRemaining h; thisRepN := thisRepN h;
     thisTrialN := thisTrialN h; thisN := thisN h; thisIndex := thisIndex h;
     ran := ran h; order := order h; _snapshots := _snapshots h;
     _trialSequence := _trialSequence h; thisTrial := thisTrial h;
     _finished := _finished h; attributes := attributes h;
     warnings := warnings h |}.
Definition set_nRemaining v h :=
  {| trialList := trialList h; nReps := nReps h; method := method h; name := name h;
     _randomNumberGenerator := _randomNumberGenerator h; nStim := nStim h;
     nTotal := nTotal h; nRemaining := v; thisRepN := thisRepN h;
     thisTrialN := thisTrialN h; thisN := thisN h; thisIndex := thisIndex h;
     ran := ran h; order := order h; _snapshots := _snapshots h;
     _trialSequence := _trialSequence h; thisTrial := thisTrial h;
     _finished := _finished h; attributes := attributes h;
     warnings := warnings h |}.
Definition set_thisRepN v h :=
  {| trialList := trialList h; nReps := nReps h; method := method h; name := name h;
     _randomNumberGenerator := _randomNumberGenerator h; nStim := nStim h;
     nTotal := nTotal h; nRemaining := nRemaining h; thisRepN := v;
     thisTrialN := thisTrialN h; thisN := thisN h; thisIndex := thisIndex h;
     ran := ran h; order := order h; _snapshots := _snapshots h;
     _trialSequence := _trialSequence h; thisTrial := thisTrial h;
     _finished := _finished h; attributes := attributes h;
     warnings := warnings h |}.
Definition set_thisTrialN v h :=
  {| trialList := trialList h; nReps := nReps h; method := method h; name := name h;
     _randomNumberGenerator := _randomNumberGenerator h; nStim := nStim h;
     nTotal := nTotal h; nRemaining := nRemaining h; thisRepN := thisRepN h;
     thisTrialN := v; thisN := thisN h; thisIndex := thisIndex h;
     ran := ran h; order := order h; _snapshots := _snapshots h;
     _trialSequence := _trialSequence h; thisTrial := thisTrial h;
     _finished := _finished h; attributes := attributes h;
     warnings := warnings h |}.
Definition set_thisN v h :=
  {| trialList := trialList h; nReps := nReps h; method := method h; name := name h;
     _randomNumberGenerator := _randomNumberGenerator h; nStim := nStim h;
     nTotal := nTotal h; nRemaining := nRemaining h; thisRepN := thisRepN h;
     thisTrialN := thisTrialN h; thisN := v; thisIndex := thisIndex h;
     ran := ran h; order := order h; _snapshots := _snapshots h;
     _trialSequence := _trialSequence h; thisTrial := thisTrial h;
     _finished := _finished h; attributes := attributes h;
     warnings := warnings h |}.
Definition set_thisIndex v h :=
  {| trialList := trialList h; nReps := nReps h; method := method h; name := name h;
     _randomNumberGenerator := _randomNumberGenerator h; nStim := nStim h;
     nTotal := nTotal h; nRemaining := nRemaining h; thisRepN := thisRepN h;
     thisTrialN := thisTrialN h; thisN := thisN h; thisIndex := v;
     ran := ran h; order := order h; _snapshots := _snapshots h;
     _trialSequence := _trialSequence h; thisTrial := thisTrial h;
     _finished := _finished h; attributes := attributes h;
     warnings := warnings h |}.
Definition set_ran v h :=
  {| trialList := trialList h; nReps := nReps h; method := method h; name := name h;
     _randomNumberGenerator := _randomNumberGenerator h; nStim := nStim h;
     nTotal := nTotal h; nRemaining := nRemaining h; thisRepN := thisRepN h;
     thisTrialN := thisTrialN h; thisN := thisN h; thisIndex := thisIndex h;
     ran := v; order := order h; _snapshots := _snapshots h;
     _trialSequence := _trialSequence h; thisTrial := thisTrial h;
     _finished := _finished h; attributes := attributes h;
     warnings := warnings h |}.
Definition set_order v h :=
  {| trialList := trialList h; nReps := nReps h; method := method h; name := name h;
     _randomNumberGenerator := _randomNumberGenerator h; nStim := nStim h;
     nTotal := nTotal h; nRemaining := nRemaining h; thisRepN := thisRepN h;
     thisTrialN := thisTrialN h; thisN := thisN h; thisIndex := thisIndex h;
     ran := ran h; order := v; _snapshots := _snapshots h;
     _trialSequence := _trialSequence h; thisTrial := thisTrial h;
     _finished := _finished h; attributes := attributes h;
     warnings := warnings h |}.
Definition set_snapshots v h :=
  {| trialList := trialList h; nReps := nReps h; method := method h; name := name h;
     _randomNumberGenerator := _randomNumberGenerator h; nStim := nStim h;
     nTotal := nTotal h; nRemaining := nRemaining h; thisRepN := thisRepN h;
     thisTrialN := thisTrialN h; thisN := thisN h; thisIndex := thisIndex h;
     ran := ran h; order := order h; _snapshots := v;
     _trialSequence := _trialSequence h; thisTrial := thisTrial h;
     _finished := _finished h; attributes := attributes h;
     warnings := warnings h |}.
Definition set_trialSequence v h :=
  {| trialList := trialList h; nReps := nReps h; method := method h; name := name h;
     _randomNumberGenerator := _randomNumberGenerator h; nStim := nStim h;
     nTotal := nTotal h; nRemaining := nRemaining h; thisRepN := thisRepN h;
     thisTrialN := thisTrialN h; thisN := thisN h; thisIndex := thisIndex h;
     ran := ran h; order := order h; _snapshots := _snapshots h;
     _trialSequence := v; thisTrial := thisTrial h;
     _finished := _finished h; attributes := attributes h;
     warnings := warnings h |}.
Definition set_thisTrial v h :=
  {| trialList := trialList h; nReps := nReps h; method := method h; name := name h;
     _randomNumberGenerator := _randomNumberGenerator h; nStim := nStim h;
     nTotal := nTotal h; nRemaining := nRemaining h; thisRepN := thisRepN h;
     thisTrialN := thisTrialN h; thisN := thisN h; thisIndex := thisIndex h;
     ran := ran h; order := order h; _snapshots := _snapshots h;
     _trialSequence := _trialSequence h; thisTrial := v;
     _finished := _finished h; attributes := attributes h;
     warnings := warnings h |}.
Definition set__finished v h :=
  {| trialList := trialList h; nReps := nReps h; method := method h; name := name h;
     _randomNumberGenerator := _randomNumberGenerator h; nStim := nStim h;
     nTotal := nTotal h; nRemaining := nRemaining h; thisRepN := thisRepN h;
     thisTrialN := thisTrialN h; thisN := thisN h; thisIndex := thisIndex h;
     ran := ran h; order := order h; _snapshots := _snapshots h;
     _trialSequence := _trialSequence h; thisTrial := thisTrial h;
     _finished := v; attributes := attributes h;
     warnings := warnings h |}.
Definition set_attributes v h :=
  {| trialList := trialList h; nReps := nReps h; method := method h; name := name h;
     _randomNumberGenerator := _randomNumberGenerator h; nStim := nStim h;
     nTotal := nTotal h; nRemaining := nRemaining h; thisRepN := thisRepN h;
     thisTrialN := thisTrialN h; thisN := thisN h; thisIndex := thisIndex h;
     ran := ran h; order := order h; _snapshots := _snapshots h;
     _trialSequence := _trialSequence h; thisTrial := thisTrial h;
     _finished := _finished h; attributes := v;
     warnings := warnings h |}.
Definition set_warnings v h :=
  {| trialList := trialList h; nReps := nReps h; method := method h; name := name h;
     _randomNumberGenerator := _randomNumberGenerator h; nStim := nStim h;
     nTotal := nTotal h; nRemaining := nRemaining h; thisRepN := thisRepN h;
     thisTrialN := thisTrialN h; thisN := thisN h; thisIndex := thisIndex h;
     ran := ran h; order := order h; _snapshots := _snapshots h;
     _trialSequence := _trialSequence h; thisTrial := thisTrial h;
     _finished := _finished h; attributes := attributes h;
     warnings := v |}.

(** *** Construction *)

(** The [trialList] option, by the cases [_prepareTrialList] tells apart. *)
Inductive TrialListArg :=
  | ListUndefined
  | ListArray (l : list trial)
  | ListResource (resourceName : string)
  | ListOther (typeof : string).

(** The constructor's options. [selectedRows] stands for what
    [importConditions] gets out of a resource through the server manager,
    the XLSX library and [util.selectFromArray]: the selected rows, each
    already turned into a trial object (or an exception). [opt_seed]
    stands for the stream of the generator that [setSeed] builds from the
    seed. [extraInfo] and [autoLog] are stored and never read. *)
Record Options := {
  selectedRows : string -> result (list trial);
  opt_trialList : TrialListArg;
  opt_nReps : Z;
  opt_method : option Method;
  opt_seed : nat -> Q;
  opt_name : value
}.

(** [importConditions]: [new Array(selectedRows.length - 1)] throws on an
    empty selection, and whatever is thrown is wrapped. *)
Definition importConditions (o : Options) (resourceName : string)
  : result (list trial) :=
  let wrap (error : string) :=
    Throw (Thrown "TrialHandler.importConditions"
                  ("when importing condition: " +:+ resourceName) error) in
  match selectedRows o resourceName with
  | Ok rows => if (length rows =? 0)%nat then wrap "RangeError" else Ok rows
  | Throw (Thrown _ _ error) => wrap error
  | Throw RangeError => wrap "RangeError"
  | Throw TypeError => wrap "TypeError"
  | Throw (ReferenceError x) => wrap x
  | Overwritten p => Overwritten p
  end.

Definition _prepareTrialList (o : Options) (arg : TrialListArg) (h : t)
  : result t :=
  match arg with
  | ListUndefined => Ok (set_trialList [TUndefined] h)
  | ListArray l =>
      if (length l =? 0)%nat then Ok (set_trialList [TUndefined] h) else Ok h
  | ListResource resourceName =>
      l ← importConditions o resourceName; Ok (set_trialList l h)
  | ListOther typeof =>
      Throw (Thrown "TrialHandler._prepareTrialList"
                    "when preparing the trial list"
                    ("unable to prepare trial list: unknown type: " +:+ typeof))
  end.

(** [Array.from(a.keys())] *)
Definition keys_of {A} (a : list A) : list Z :=
  Z.of_nat <$> seq 0 (length a).

(** [a.slice(start, end)] *)
Definition slice_index (len : nat) (k : Z) : nat :=
  if k <? 0 then Z.to_nat (Z.max (Z.of_nat len + k) 0)
  else Nat.min (Z.to_nat k) len.
Definition slice {A} (a : list A) (start stop : Z) : list A :=
  let from := slice_index (length a) start in
  let to := slice_index (length a) stop in
  take (to - from)%nat (drop from a).

(** The three loops of [_prepareSequence]; [n] is the number of
    iterations of [for (let i = 0; i < this.nReps; ++i)] still to run. *)
Fixpoint random_rows (n : nat) (indices : list Z) (g : RandomSource)
  (seq : list (list Z)) : list (list Z) * RandomSource :=
  match n with
  | O => (seq, g)
  | S n' =>
      let '(row, g') := shuffle (slice indices 0 (Z.of_nat (length indices))) g in
      random_rows n' indices g' (seq ++ [row])
  end.

Fixpoint flat_rows (n : nat) (indices flatSequence : list Z) : list Z :=
  match n with
  | O => flatSequence
  | S n' => flat_rows n' indices (flatSequence ++ indices)
  end.

Fixpoint reshape_rows (n : nat) (i : Z) (flatSequence : list Z) (nStim : Z)
  (seq : list (list Z)) : list (list Z) :=
  match n with
  | O => seq
  | S n' =>
      reshape_rows n' (i + 1) flatSequence nStim
        (seq ++ [slice flatSequence (i * nStim) ((i + 1) * nStim)])
  end.

Definition _prepareSequence (h : t) : result t :=
  let indices := keys_of (trialList h) in
  match method h with
  | SEQUENTIAL =>
      (* [Array(n)] throws unless n is an array length *)
      if (0 <=? nReps h) && (nReps h <? 2 ^ 32)
      then Ok (set_trialSequence (replicate (Z.to_nat (nReps h)) indices) h)
      else Throw RangeError
  | RANDOM =>
      (* [push] throws once the array would hold more than 2^32 - 1
         elements: here at the turn i = 2^32 - 1 of the loop *)
      if nReps h <? 2 ^ 32 then
        let '(seq, g) :=
          random_rows (Z.to_nat (nReps h)) indices (_randomNumberGenerator h) [] in
        Ok (set_trialSequence seq (set_rng g h))
      else Throw RangeError
  | FULL_RANDOM =>
      (* the same limit: for [flatSequence], which takes all the indices
         at each turn, and then for the rows *)
      if (nReps h * Z.of_nat (length indices) <? 2 ^ 32) && (nReps h <? 2 ^ 32)
      then
        let flatSequence := flat_rows (Z.to_nat (nReps h)) indices [] in
        let '(flatSequence, g) := shuffle flatSequence (_randomNumberGenerator h) in
        Ok (set_trialSequence
              (reshape_rows (Z.to_nat (nReps h)) 0 flatSequence (nStim h) [])
              (set_rng g h))
      else Throw RangeError
  | OTHER =>
      Throw (Thrown "TrialHandler._prepareSequence"
                    "when preparing a sequence of trials" "unknown method")
  end.

Definition new (o : Options) : result t :=
  (* [trialList = [undefined]] and [method = Method.RANDOM] by default *)
  let trialList := match opt_trialList o with
                   | ListUndefined => ListArray [TUndefined]
                   | arg => arg
                   end in
  let h := {| trialList := match trialList with ListArray l => l | _ => [] end;
              nReps := opt_nReps o;
              method := default RANDOM (opt_method o);
              name := opt_name o;
              _randomNumberGenerator := {| draws := opt_seed o; consumed := 0 |};
              nStim := 0; nTotal := 0; nRemaining := 0; thisRepN := 0;
              thisTrialN := 0; thisN := 0; thisIndex := None; ran := 0;
              order := 0; _snapshots := []; _trialSequence := [];
              thisTrial := TUndefined; _finished := VUndefined;
              attributes := ∅; warnings := [] |} in
  h ← _prepareTrialList o trialList h;
  let h := set_nStim (Z.of_nat (length (TrialHandler.trialList h))) h in
  let h := set_nTotal (nReps h * nStim h) h in
  let h := set_nRemaining (nTotal h) h in
  let h := set_thisRepN 0 h in
  let h := set_thisTrialN (-1) h in
  let h := set_thisN (-1) h in
  let h := set_thisIndex (Some 0) h in
  let h := set_ran 0 h in
  let h := set_order (-1) h in
  let h := set_snapshots [] h in
  h ← _prepareSequence h;
  let h := set_thisTrial TNull h in
  let h := set__finished (VBool false) h in
  Ok h.

(** *** Iteration *)

(** [{done: true}] and [{value, done: false}] *)
Inductive IteratorResult :=
  | Done
  | Yield (value : trial).

(** The [next] of the object returned by [[Symbol.iterator]()]. *)
Definition iterator_next (h : t) : result (t * IteratorResult) :=
  let h := set_thisTrialN (thisTrialN h + 1) h in
  let h := set_thisN (thisN h + 1) h in
  let h := set_nRemaining (nRemaining h - 1) h in
  let h := if thisTrialN h =? nStim h
           then set_thisRepN (thisRepN h + 1) (set_thisTrialN 0 h)
           else h in
  if thisRepN h >=? nReps h then
    Ok (set_thisTrial TNull h, Done)
  else
    match lookupZ (_trialSequence h) (thisRepN h) with
    | None => Throw TypeError
    | Some row =>
        let h := set_thisIndex (lookupZ row (thisTrialN h)) h in
        let h := set_thisTrial (trial_at (trialList h) (thisIndex h)) h in
        let h := set_ran 1 h in
        let h := set_order (thisN h) h in
        Ok (h, Yield (thisTrial h))
    end.

(** [next()]: the value of the step, [undefined] once the sequence is over. *)
Definition next (h : t) : result (t * trial) :=
  '(h, r) ← iterator_next h;
  Ok (h, match r with Yield v => v | Done => TUndefined end).

(** [forEach(callback)]. The callback may read the handler; it folds its
    argument into an accumulator. [fuel] bounds the turns of
    [while (true)]: [None] when it runs out. *)
Fixpoint forEach {A} (fuel : nat) (callback : t -> trial -> A -> A) (h : t)
  (acc : A) : option (result (t * A)) :=
  match fuel with
  | O => None
  | S fuel' =>
      match iterator_next h with
      | Ok (h', Done) => Some (Ok (h', acc))
      | Ok (h', Yield v) => forEach fuel' callback h' (callback h' v acc)
      | Throw e => Some (Throw e)
      | Overwritten p => Some (Overwritten p)
      end
  end.

(** *** Lookups *)

Definition getTrialIndex (h : t) : option Z := thisIndex h.

Definition setTrialIndex (index : option Z) (h : t) : t :=
  set_thisIndex index h.

Definition getCurrentTrial (h : t) : trial :=
  trial_at (trialList h) (thisIndex h).

Definition getTrial (h : t) (index : Z) : t * trial :=
  if (index <? 0) || (index >? nTotal h) then (h, TUndefined)
  else (h, trial_at (trialList h) (Some index)).

(** With [thisIndex] undefined both comparisons and the lookup see NaN. *)
Definition getFutureTrial (h : t) (n : Z) : t * trial :=
  match thisIndex h with
  | Some i =>
      if (i + n <? 0) || (n >? nRemaining h) then (h, TUndefined)
      else (h, trial_at (trialList h) (Some (i + n)))
  | None => (h, TUndefined)
  end.

(** The bindings of the module: its imports and the class. *)
Definition module_scope : list string :=
  ["seedrandom"; "XLSX"; "PsychObject"; "util"; "TrialHandler"].

(** A free identifier of the module's (strict) code; the global object
    of a browser or of Node defines neither name looked up below. *)
Definition resolve (x : string) : result unit :=
  if bool_decide (x ∈ module_scope) then Ok () else Throw (ReferenceError x).

(** [return getFutureTrial(-abs(n));] the callee and [abs] are free
    identifiers, not [this.getFutureTrial] and [Math.abs]. The callee is
    resolved first, then the argument is evaluated. *)
Definition getEarlierTrial (h : t) (n : Z) : result (t * trial) :=
  _ ← resolve "getFutureTrial";
  _ ← resolve "abs";
  Throw TypeError.

(** *** Snapshots *)

Definition excludedAttributes : list string :=
  ["handler"; "name"; "nStim"; "nRemaining"; "thisRepN"; "thisTrialN";
   "thisN"; "thisIndex"; "ran"; "finished"].

(** The properties every array inherits (ECMAScript 2023 and later: the
    list of 2021 with [at], [findLast], [findLastIndex], [toReversed],
    [toSorted], [toSpliced] and [with]). *)
Definition Array_prototype : list string :=
  ["constructor"; "at"; "concat"; "copyWithin"; "entries"; "every"; "fill";
   "filter"; "find"; "findIndex"; "findLast"; "findLastIndex"; "flat";
   "flatMap"; "forEach"; "includes"; "indexOf"; "join"; "keys";
   "lastIndexOf"; "map"; "pop"; "push"; "reduce"; "reduceRight"; "reverse";
   "shift"; "slice"; "some"; "sort"; "splice"; "toLocaleString";
   "toReversed"; "toSorted"; "toSpliced"; "toString"; "unshift"; "values";
   "with";
   "hasOwnProperty"; "isPrototypeOf"; "propertyIsEnumerable"; "valueOf";
   "__proto__"; "__defineGetter__"; "__defineSetter__"; "__lookupGetter__";
   "__lookupSetter__"].

(** [k in a] for an array [a]: [k] is one of its indices, [length], or
    inherited. It does not look at the elements. *)
Definition in_array {A} (k : string) (a : list A) : bool :=
  bool_decide (k ∈ (fun i : nat => pretty i) <$> seq 0 (length a))
  || bool_decide (k = "length")
  || bool_decide (k ∈ Array_prototype).

Definition number (i : option Z) : value :=
  match i with Some z => VNum z | None => VUndefined end.

(** The object literal that [getSnapshot] starts from. *)
Definition snapshot_literal (h : t) : gmap string value :=
  list_to_map
    [("handler", VHandler); ("name", name h); ("nStim", VNum (nStim h));
     ("nTotal", VNum (nTotal h)); ("nRemaining", VNum (nRemaining h));
     ("thisRepN", VNum (thisRepN h)); ("thisTrialN", VNum (thisTrialN h));
     ("thisN", VNum (thisN h)); ("thisIndex", number (thisIndex h));
     ("ran", VNum (ran h)); ("finished", _finished h);
     ("getCurrentTrial", VFun (GetCurrentTrialAt (thisIndex h)));
     ("getTrial", VFun GetTrialOfHandler);
     ("addData", VFun AddDataOfHandler)].

(** One turn of [for (const attribute in currentTrial)]: the snapshot,
    the [trialAttributes] array and the warnings logged so far. The
    snapshot's [trialAttributes] is that same array, assigned last. *)
Definition capture_attribute (currentTrial : list (string * value))
  (st : gmap string value * list string * list string) (attribute : string)
  : gmap string value * list string * list string :=
  let '(snapshot, trialAttributes, logged) := st in
  let '(snapshot, trialAttributes, logged) :=
    if negb (in_array attribute excludedAttributes)
    then (<[attribute := field currentTrial attribute]> snapshot,
          trialAttributes ++ [attribute], logged)
    else (snapshot, trialAttributes,
          logged ++ ["attempt to replace the value of protected TrialHandler variable: "
                     +:+ attribute]) in
  (<["trialAttributes" := VNames trialAttributes]> snapshot,
   trialAttributes, logged).

(** [getSnapshot()]: the handler with the snapshot pushed on
    [_snapshots], and the position of that snapshot. *)
Definition getSnapshot (h : t) : t * nat :=
  let snapshot := snapshot_literal h in
  let fields := match getCurrentTrial h with
                | TObj fs => fs
                | _ => []
                end in
  let '(snapshot, _, logged) :=
    foldl (capture_attribute fields) (snapshot, [], []) fields.*1 in
  let h := set_warnings (warnings h ++ logged) h in
  (set_snapshots (_snapshots h ++ [snapshot]) h, length (_snapshots h)).

(** The setter [finished]. *)
Definition set_finished (isFinished : value) (h : t) : t :=
  let h := set__finished isFinished h in
  set_snapshots ((fun snapshot => <["finished" := isFinished]> snapshot)
                   <$> _snapshots h) h.

Definition finished (h : t) : value := _finished h.

(** The members of a handler that TrialHandler.js declares or uses and
    those every object inherits, apart from the counters and [finished],
    which [assign] below handles one by one. (What else PsychObject
    defines is not in the sources.) *)
Definition members : list string :=
  ["psychoJS"; "_psychoJS"; "experimentHandler"; "_experimentHandler";
   "trialList"; "_trialList"; "nReps"; "_nReps"; "method"; "_method";
   "extraInfo"; "_extraInfo"; "name"; "_name"; "autoLog"; "_autoLog";
   "seed"; "_seed"; "_randomNumberGenerator"; "_snapshots"; "_trialSequence";
   "thisTrial"; "constructor"; "next"; "forEach"; "getSnapshot"; "setSeed";
   "getTrialIndex"; "setTrialIndex"; "getAttributes"; "getCurrentTrial";
   "getTrial"; "getFutureTrial"; "getEarlierTrial"; "addData";
   "_prepareTrialList"; "_prepareSequence"; "_addAttribute"; "_setAttribute";
   "_userAttributes"; "toString"; "hasOwnProperty"; "isPrototypeOf";
   "propertyIsEnumerable"; "valueOf"; "toLocaleString"; "__proto__"].

Definition as_number (p : string) (v : value) : result Z :=
  match v with
  | VNum z => Ok z
  | _ => Overwritten p
  end.

Definition as_index (p : string) (v : value) : result (option Z) :=
  match v with
  | VNum z => Ok (Some z)
  | VUndefined => Ok None
  | _ => Overwritten p
  end.

(** [handler[p] = v] *)
Definition assign (p : string) (v : value) (h : t) : result t :=
  if decide (p = "nStim") then z ← as_number p v; Ok (set_nStim z h)
  else if decide (p = "nTotal") then z ← as_number p v; Ok (set_nTotal z h)
  else if decide (p = "nRemaining") then z ← as_number p v; Ok (set_nRemaining z h)
  else if decide (p = "thisRepN") then z ← as_number p v; Ok (set_thisRepN z h)
  else if decide (p = "thisTrialN") then z ← as_number p v; Ok (set_thisTrialN z h)
  else if decide (p = "thisN") then z ← as_number p v; Ok (set_thisN z h)
  else if decide (p = "thisIndex") then i ← as_index p v; Ok (set_thisIndex i h)
  else if decide (p = "ran") then z ← as_number p v; Ok (set_ran z h)
  else if decide (p = "order") then z ← as_number p v; Ok (set_order z h)
  else if decide (p = "_finished") then Ok (set__finished v h)
  else if decide (p = "finished") then Ok (set_finished v h)
  else if bool_decide (p ∈ members) then Overwritten p
  else Ok (set_attributes (<[p := v]> (attributes h)) h).

(** [o[p]] on a snapshot *)
Definition get (snapshot : gmap string value) (p : string) : value :=
  default VUndefined (snapshot !! p).

Fixpoint assign_all (snapshot : gmap string value) (l : list string) (h : t)
  : result t :=
  match l with
  | [] => Ok h
  | attribute :: l' =>
      h ← assign attribute (get snapshot attribute) h;
      assign_all snapshot l' h
  end.

(** The iteration of [for (const attribute of v)] *)
Definition iterate (v : value) : result (list string) :=
  match v with
  | VNames l => Ok l
  | VStr s => Ok ((fun c => String c EmptyString) <$> String.list_ascii_of_string s)
  | VHandler => Overwritten "trialAttributes"   (* a handler is iterable *)
  | _ => Throw TypeError
  end.

(** [TrialHandler.fromSnapshot(snapshot)]: [None] is [undefined], [Some i]
    the snapshot at position [i] of [_snapshots] (a position that holds
    no snapshot stands for a value without a [handler]). The loop reads
    the snapshot as it was on entry: the one assignment that reaches it,
    to [finished], writes back the value just read from it. *)
Definition fromSnapshot (snapshot : option nat) (h : t) : result t :=
  match snapshot with
  | None => Ok h
  | Some i =>
      match _snapshots h !! i with
      | None => Throw TypeError
      | Some snapshot =>
          match get snapshot "handler" with
          | VHandler =>
              h ← assign "nStim" (get snapshot "nStim") h;
              h ← assign "nTotal" (get snapshot "nTotal") h;
              h ← assign "nRemaining" (get snapshot "nRemaining") h;
              h ← assign "thisRepN" (get snapshot "thisRepN") h;
              h ← assign "thisTrialN" (get snapshot "thisTrialN") h;
              h ← assign "thisN" (get snapshot "thisN") h;
              h ← assign "thisIndex" (get snapshot "thisIndex") h;
              h ← assign "ran" (get snapshot "ran") h;
              h ← assign "_finished" (get snapshot "_finished") h;
              let h := set_thisTrial (getCurrentTrial h) h in
              l ← iterate (get snapshot "trialAttributes");
              assign_all snapshot l h
          | _ => Throw TypeError
          end
      end
  end.

(** *** Vocabulary of the statements *)

(** [k] calls of the iterator's [next], with their results in order. *)
Fixpoint advance (k : nat) (h : t) : result (t * list IteratorResult) :=
  match k with
  | O => Ok (h, [])
  | S k' =>
      '(h, r) ← iterator_next h;
      '(h, rs) ← advance k' h;
      Ok (h, r :: rs)
  end.

(** A [forEach] callback: it notes the index and the trial of each step. *)
Definition record_step (h : t) (v : trial) (acc : list (option Z * trial))
  : list (option Z * trial) :=
  acc ++ [(thisIndex h, v)].

(** The counters a snapshot carries. *)
Definition counters (h : t) : Z * Z * Z * Z * Z * Z * option Z * Z :=
  (nStim h, nTotal h, nRemaining h, thisRepN h, thisTrialN h, thisN h,
   thisIndex h, ran h).

(** Names a trial field must avoid for [fromSnapshot] to leave the
    counters and the members of the handler alone. *)
Definition protected : list string :=
  ["handler"; "nStim"; "nTotal"; "nRemaining"; "thisRepN"; "thisTrialN";
   "thisN"; "thisIndex"; "ran"; "order"] ++ members.

(** [snapshot[p] = v] by the holder of the snapshot at position [i]. *)
Definition snapshot_assign (i : nat) (p : string) (v : value) (h : t) : t :=
  set_snapshots (alter (fun snapshot => <[p := v]> snapshot) i (_snapshots h)) h.

(** What a cursor is expected to satisfy between two calls. *)
Record cursor_ok (h : t) : Prop := {
  ok_nStim : 1 <= nStim h;
  ok_rep : 0 <= thisRepN h;
  ok_trial : -1 <= thisTrialN h < nStim h;
  ok_thisN : thisN h = thisRepN h * nStim h + thisTrialN h;
  ok_sum : thisN h + nRemaining h = nTotal h - 1;
  ok_total : nTotal h = nReps h * nStim h;
  ok_rows : length (_trialSequence h) = Z.to_nat (nReps h)
}.

(** What no step of the iteration touches. *)
Definition same_setup (h h' : t) : Prop :=
  trialList h' = trialList h /\ nReps h' = nReps h /\ method h' = method h
  /\ nStim h' = nStim h /\ nTotal h' = nTotal h
  /\ _trialSequence h' = _trialSequence h /\ _snapshots h' = _snapshots h
  /\ _finished h' = _finished h.

(** The handler after the [_addAttribute] calls of the constructor, and
    the counters as its assignments leave them: [new] in two stages. *)
Definition start (o : Options) : t :=
  {| trialList := match opt_trialList o with
                  | ListArray l => l
                  | ListUndefined => [TUndefined]
                  | _ => []
                  end;
     nReps := opt_nReps o;
     method := default RANDOM (opt_method o);
     name := opt_name o;
     _randomNumberGenerator := {| draws := opt_seed o; consumed := 0 |};
     nStim := 0; nTotal := 0; nRemaining := 0; thisRepN := 0;
     thisTrialN := 0; thisN := 0; thisIndex := None; ran := 0;
     order := 0; _snapshots := []; _trialSequence := [];
     thisTrial := TUndefined; _finished := VUndefined;
     attributes := ∅; warnings := [] |}.

Definition reset (h : t) : t :=
  {| trialList := trialList h; nReps := nReps h; method := method h;
     name := name h; _randomNumberGenerator := _randomNumberGenerator h;
     nStim := Z.of_nat (length (trialList h));
     nTotal := nReps h * Z.of_nat (length (trialList h));
     nRemaining := nReps h * Z.of_nat (length (trialList h));
     thisRepN := 0; thisTrialN := -1; thisN := -1; thisIndex := Some 0;
     ran := 0; order := -1; _snapshots := [];
     _trialSequence := _trialSequence h; thisTrial := thisTrial h;
     _finished := _finished h; attributes := attributes h;
     warnings := warnings h |}.

(** The trial list that [_prepareTrialList] settles on. *)
Definition prepared_list (o : Options) : list trial :=
  match opt_trialList o with
  | ListUndefined => [TUndefined]
  | ListArray [] => [TUndefined]
  | ListArray l => l
  | ListResource resourceName =>
      match selectedRows o resourceName with
      | Ok rows => rows
      | _ => []
      end
  | ListOther _ => []
  end.

(** [o] with another [trialList] option. *)
Definition with_trialList (l : TrialListArg) (o : Options) : Options :=
  {| selectedRows := selectedRows o; opt_trialList := l;
     opt_nReps := opt_nReps o; opt_method := opt_method o;
     opt_seed := opt_seed o; opt_name := opt_name o |}.

(** [o] with another stream of draws. *)
Definition with_seed (f : nat -> Q) (o : Options) : Options :=
  {| selectedRows := selectedRows o; opt_trialList := opt_trialList o;
     opt_nReps := opt_nReps o; opt_method := opt_method o;
     opt_seed := f; opt_name := opt_name o |}.

(** What the random source promises: floats in [0, 1). *)
Definition unit_interval (f : nat -> Q) : Prop :=
  forall k, (0 <= f k)%Q /\ (f k < 1)%Q.

(** [s[p]] for the snapshot [s] at position [i] of [_snapshots]. *)
Definition snapshot_field (h : t) (i : nat) (p : string) : value :=
  match _snapshots h !! i with
  | Some snapshot => get snapshot p
  | None => VUndefined
  end.

(** What [fromSnapshot] is expected to bring back. *)
Definition same_cursor (h h' : t) : Prop :=
  counters h' = counters h /\ thisTrial h' = thisTrial h
  /\ trialList h' = trialList h /\ _trialSequence h' = _trialSequence h
  /\ nReps h' = nReps h /\ order h' = order h.

(** The calls that change a handler, and a run of them. *)
Inductive operation :=
  | DoNext
  | DoGetSnapshot
  | DoFromSnapshot (snapshot : option nat)
  | DoSetFinished (isFinished : value)
  | DoSetTrialIndex (index : option Z).

Definition perform (op : operation) (h : t) : result t :=
  match op with
  | DoNext => p ← iterator_next h; Ok p.1
  | DoGetSnapshot => Ok (getSnapshot h).1
  | DoFromSnapshot snapshot => fromSnapshot snapshot h
  | DoSetFinished isFinished => Ok (set_finished isFinished h)
  | DoSetTrialIndex index => Ok (setTrialIndex index h)
  end.

Fixpoint perform_all (ops : list operation) (h : t) : result t :=
  match ops with
  | [] => Ok h
  | op :: ops' => h ← perform op h; perform_all ops' h
  end.

(** Trials none of whose fields is named like a member of the handler
    or a reserved field of a snapshot. *)
Definition plain_trial (tr : trial) : Prop :=
  match tr with
  | TObj fs => Forall (fun k => k ∉ protected) fs.*1
  | _ => True
  end.

(** A snapshot taken on a cursor whose counters add up to [total - 1]. *)
Definition snapshot_ok (total : Z) (s : gmap string value) : Prop :=
  (forall a b, get s "thisN" = VNum a -> get s "nRemaining" = VNum b ->
               a + b = total - 1)
  /\ (forall l, iterate (get s "trialAttributes") = Ok l ->
                Forall (fun k => k ∉ protected) l).

(** Two snapshots that agree on every field but [finished]. *)
Definition upto_finished (s s' : gmap string value) : Prop :=
  forall p, p <> "finished" -> get s' p = get s p.

(** A handler as the constructor leaves it. *)
Record fresh (o : Options) (h : t) : Prop := {
  fresh_list : trialList h <> [];
  fresh_prepared : trialList h = prepared_list o;
  fresh_nReps : nReps h = opt_nReps o;
  fresh_method : method h = default RANDOM (opt_method o);
  fresh_nStim : nStim h = Z.of_nat (length (trialList h));
  fresh_nTotal : nTotal h = nReps h * nStim h;
  fresh_nRemaining : nRemaining h = nTotal h;
  fresh_thisRepN : thisRepN h = 0;
  fresh_thisTrialN : thisTrialN h = -1;
  fresh_thisN : thisN h = -1;
  fresh_thisIndex : thisIndex h = Some 0;
  fresh_ran : ran h = 0;
  fresh_order : order h = -1;
  fresh_snapshots : _snapshots h = [];
  fresh_thisTrial : thisTrial h = TNull;
  fresh_finished : _finished h = VBool false;
  fresh_rows : length (_trialSequence h) = Z.to_nat (nReps h)
}.

(** What every call keeps true of a handler whose counters add up to
    [total - 1]. *)
Record steady (total : Z) (h : t) : Prop := {
  steady_sum : thisN h + nRemaining h = total - 1;
  steady_list : Forall plain_trial (trialList h);
  steady_snapshots : Forall (snapshot_ok total) (_snapshots h)
}.

(** *** The rest of the class *)

(** [getAttributes()]; the trial list is always an array here. *)
Definition getAttributes (h : t) : list string :=
  if nStim h =? 0 then []
  else match trial_at (trialList h) (Some 0) with
       | TObj fs => fs.*1
       | _ => []
       end.

(** [snapshot.getCurrentTrial()] for the snapshot at position [i]: the
    arrow function captured [currentIndex], and [getTrial(index = 0)]
    takes 0 for an undefined argument. *)
Definition call_getCurrentTrial (i : nat) (h : t) : result (t * trial) :=
  match snapshot_field h i "getCurrentTrial" with
  | VFun (GetCurrentTrialAt currentIndex) =>
      Ok (getTrial h (default 0 currentIndex))
  | VFun _ => Overwritten "getCurrentTrial"
  | _ => Throw TypeError
  end.

(** When [_prepareTrialList] and [_prepareSequence] accept the options. *)
Definition list_accepted (o : Options) : Prop :=
  match opt_trialList o with
  | ListUndefined | ListArray _ => True
  | ListResource resourceName =>
      exists rows, selectedRows o resourceName = Ok rows /\ rows <> []
  | ListOther _ => False
  end.

Definition method_accepted (o : Options) : Prop :=
  match default RANDOM (opt_method o) with
  | SEQUENTIAL => 0 <= opt_nReps o < 2 ^ 32
  | RANDOM => opt_nReps o < 2 ^ 32
  | FULL_RANDOM =>
      opt_nReps o * Z.of_nat (length (prepared_list o)) < 2 ^ 32
  | OTHER => False
  end.

(** The number of [getSnapshot] calls in a run. *)
Fixpoint captures (ops : list operation) : nat :=
  match ops with
  | [] => O
  | DoGetSnapshot :: ops' => S (captures ops')
  | _ :: ops' => captures ops'
  end.


(** The warning logged for a field that is not copied. *)
Definition protected_warning (attribute : string) : string :=
  "attempt to replace the value of protected TrialHandler variable: "
  +:+ attribute.

(** A handler in the middle of a row of a sequential ordering. *)
Record in_sequential_row (h : t) : Prop := {
  row_cursor : cursor_ok h;
  row_ordering :
    _trialSequence h = replicate (Z.to_nat (nReps h)) (keys_of (trialList h));
  row_nStim : nStim h = Z.of_nat (length (trialList h));
  row_rep : thisRepN h < nReps h;
  row_trial : 0 <= thisTrialN h;
  row_index : thisIndex h = Some (thisTrialN h);
  row_thisTrial : thisTrial h = trial_at (trialList h) (Some (thisTrialN h))
}.



(** *** Sample handlers *)

Definition words : list trial :=
  [TObj [("word", VStr "a")]; TObj [("word", VStr "b")];
   TObj [("word", VStr "c")]].

Definition options (m : Method) (n : Z) (l : TrialListArg) : Options :=
  {| selectedRows := fun _ => Ok words;
     opt_trialList := l;
     opt_nReps := n;
     opt_method := Some m;
     opt_seed := fun k => (Z.of_nat (k mod 3) # 3)%Q;
     opt_name := VStr "trials" |}.

(** The handler that [new o] returns, after [k] calls of [next]. *)
Definition after (k : nat) (o : Options) : option t :=
  match new o with
  | Ok h => match advance k h with
            | Ok (h', _) => Some h'
            | _ => None
            end
  | _ => None
  end.

Definition pair : list trial :=
  [TObj [("word", VStr "a")]; TObj [("word", VStr "b")]].

End TrialHandler.

Import TrialHandler.

(** * Properties *)

(** ** Construction *)

Lemma prepareTrialList_nonempty o h0 h1 :
  _prepareTrialList o
    (match opt_trialList o with
     | ListUndefined => ListArray [TUndefined]
     | arg => arg
     end) h0 = Ok h1 ->
  trialList h0 = match opt_trialList o with
                 | ListArray l => l
                 | ListUndefined => [TUndefined]
                 | _ => []
                 end ->
  prepared_list o <> [] /\ h1 = set_trialList (prepared_list o) h0.
Proof.
  intros H H0. destruct h0; simpl in *; subst.
  unfold prepared_list.
  destruct (opt_trialList o) as [|l|r|ty]; simpl in H.
  - by injection H as <-.
  - destruct l as [|x l]; simpl in H; by injection H as <-.
  - unfold importConditions in H.
    destruct (selectedRows o r) as [[|x rows]|[]|]; simpl in H;
      try discriminate.
    by injection H as <-.
  - discriminate.
Qed.

Lemma random_rows_length n : forall indices g seq,
  length (random_rows n indices g seq).1 = (length seq + n)%nat.
Proof.
  induction n as [|n IH]; intros indices g seq; simpl; [lia|].
  destruct (shuffle _ g) as [row g']. rewrite IH, length_app. simpl. lia.
Qed.

Lemma reshape_rows_length n : forall i flat w seq,
  length (reshape_rows n i flat w seq) = (length seq + n)%nat.
Proof.
  induction n as [|n IH]; intros i flat w seq; simpl; [lia|].
  rewrite IH, length_app. simpl. lia.
Qed.

Lemma prepareSequence_ok h h' :
  _prepareSequence h = Ok h' ->
  exists seq g, h' = set_trialSequence seq (set_rng g h)
              /\ length seq = Z.to_nat (nReps h).
Proof.
  unfold _prepareSequence. intros H.
  destruct (method h).
  - destruct (_ && _); [|discriminate]. injection H as <-.
    exists (replicate (Z.to_nat (nReps h)) (keys_of (trialList h))),
      (_randomNumberGenerator h).
    split; [by destruct h | by rewrite length_replicate].
  - destruct (_ <? _); [|discriminate].
    pose proof (random_rows_length (Z.to_nat (nReps h))
                  (keys_of (trialList h)) (_randomNumberGenerator h) []) as L.
    destruct (random_rows _ _ _ _) as [seq g]. injection H as <-.
    exists seq, g. split; [reflexivity | exact L].
  - destruct (_ && _); [|discriminate].
    destruct (shuffle _ _) as [flat g]. injection H as <-.
    eexists _, g. split; [reflexivity|]. by rewrite reshape_rows_length.
  - discriminate.
Qed.

Lemma new_stages o :
  new o =
  (h ← _prepareTrialList o (match opt_trialList o with
                            | ListUndefined => ListArray [TUndefined]
                            | arg => arg
                            end) (start o);
   h ← _prepareSequence (reset h);
   Ok (set__finished (VBool false) (set_thisTrial TNull h))).
Proof. unfold new, start. destruct (opt_trialList o); reflexivity. Qed.

Lemma new_fresh o h : new o = Ok h -> fresh o h.
Proof.
  rewrite new_stages. intros H.
  destruct (_prepareTrialList o _ (start o)) as [h1| |] eqn:E1;
    try discriminate.
  apply prepareTrialList_nonempty in E1 as (Hne & ->); [|done].
  cbn [mbind result_bind] in H.
  destruct (_prepareSequence _) as [h3| |] eqn:E2; try discriminate.
  apply prepareSequence_ok in E2 as (seq & g & -> & Hlen).
  cbn [mbind result_bind] in H. injection H as <-.
  constructor; cbn; done.
Qed.

Lemma fresh_cursor_ok o h : fresh o h -> cursor_ok h.
Proof.
  intros [].
  assert (1 <= nStim h) by (destruct (trialList h); [done | simpl in *; lia]).
  constructor; lia.
Qed.

(** ** One step of the iteration *)

Lemma iterator_next_ok h :
  cursor_ok h ->
  exists h' r,
    iterator_next h = Ok (h', r) /\ cursor_ok h' /\ same_setup h h'
    /\ thisN h' = thisN h + 1 /\ nRemaining h' = nRemaining h - 1
    /\ 0 <= thisTrialN h'
    /\ (r = Done <-> nTotal h <= thisN h')
    /\ (r = Done -> thisTrial h' = TNull /\ thisIndex h' = thisIndex h
                    /\ ran h' = ran h /\ order h' = order h)
    /\ (forall v, r = Yield v ->
          exists row, _trialSequence h !! Z.to_nat (thisRepN h') = Some row
            /\ thisIndex h' = lookupZ row (thisTrialN h')
            /\ v = trial_at (trialList h) (thisIndex h')
            /\ thisTrial h' = v /\ ran h' = 1 /\ order h' = thisN h').
Proof.
  intros [].
  unfold iterator_next. cbn.
  destruct (Z.eqb_spec (thisTrialN h + 1) (nStim h)) as [E|E]; cbn.
  - rewrite Z.geb_leb.
    destruct (Z.leb_spec (nReps h) (thisRepN h + 1)) as [L|L].
    + eexists _, _. split; [reflexivity|]. cbn.
      split; [constructor; cbn; nia|].
      split; [done|]. repeat split; try done; try nia.
    + unfold lookupZ. destruct (Z.ltb_spec (thisRepN h + 1) 0); [lia|].
      destruct (_trialSequence h !! Z.to_nat (thisRepN h + 1)) as [row|] eqn:R.
      2:{ apply lookup_ge_None in R. lia. }
      eexists _, _. split; [reflexivity|]. cbn.
      split; [constructor; cbn; nia|].
      split; [done|]. repeat split; try done; try nia.
      intros v [= <-]. exists row. done.
  - rewrite Z.geb_leb.
    destruct (Z.leb_spec (nReps h) (thisRepN h)) as [L|L].
    + eexists _, _. split; [reflexivity|]. cbn.
      split; [constructor; cbn; nia|].
      split; [done|]. repeat split; try done; try nia.
    + unfold lookupZ. destruct (Z.ltb_spec (thisRepN h) 0); [lia|].
      destruct (_trialSequence h !! Z.to_nat (thisRepN h)) as [row|] eqn:R.
      2:{ apply lookup_ge_None in R. lia. }
      eexists _, _. split; [reflexivity|]. cbn.
      split; [constructor; cbn; nia|].
      split; [done|]. repeat split; try done; try nia.
      intros v [= <-]. exists row. done.
Qed.

Lemma same_setup_refl h : same_setup h h.
Proof. by repeat split. Qed.

Lemma same_setup_trans h1 h2 h3 :
  same_setup h1 h2 -> same_setup h2 h3 -> same_setup h1 h3.
Proof.
  unfold same_setup. intros H12 H23.
  destruct_and!. repeat split; congruence.
Qed.

Lemma advance_ok k : forall h,
  cursor_ok h ->
  exists hk rs,
    advance k h = Ok (hk, rs) /\ cursor_ok hk /\ same_setup h hk
    /\ thisN hk = thisN h + Z.of_nat k
    /\ nRemaining hk = nRemaining h - Z.of_nat k
    /\ length rs = k
    /\ (forall i r, rs !! i = Some r ->
          (r = Done <-> nTotal h <= thisN h + 1 + Z.of_nat i)).
Proof.
  induction k as [|k IH]; intros h Hok.
  - exists h, []. cbn. split; [done|]. split; [done|].
    split; [apply same_setup_refl|]. repeat split; done || lia.
  - destruct (iterator_next_ok h Hok)
      as (h1 & r & E & Hok1 & S1 & N1 & R1 & _ & D1 & _).
    destruct (IH h1 Hok1) as (hk & rs & Ek & Hokk & Sk & Nk & Rk & Lk & Dk).
    exists hk, (r :: rs). cbn [advance]. rewrite E. cbn. rewrite Ek. cbn.
    split; [done|]. split; [done|].
    split; [by eapply same_setup_trans|].
    split; [lia|]. split; [lia|]. split; [by rewrite Lk|].
    intros [|i] r' Hi; cbn in Hi.
    + injection Hi as <-. rewrite D1, N1. lia.
    + rewrite (Dk i r' Hi).
      destruct S1 as (_ & _ & _ & _ & -> & _). lia.
Qed.

Lemma done_means_over h h' :
  iterator_next h = Ok (h', Done) ->
  nReps h' <= thisRepN h' /\ thisTrial h' = TNull.
Proof.
  unfold iterator_next. cbn.
  destruct (thisTrialN h + 1 =? nStim h); cbn; rewrite Z.geb_leb.
  - destruct (Z.leb_spec (nReps h) (thisRepN h + 1)).
    + intros [= <-]. cbn. done.
    + destruct (lookupZ _ _); discriminate.
  - destruct (Z.leb_spec (nReps h) (thisRepN h)).
    + intros [= <-]. cbn. done.
    + destruct (lookupZ _ _); discriminate.
Qed.

Lemma next_when_over h :
  nReps h <= thisRepN h ->
  exists h',
    iterator_next h = Ok (h', Done)
    /\ nReps h' <= thisRepN h' /\ thisTrial h' = TNull
    /\ thisN h' = thisN h + 1 /\ nRemaining h' = nRemaining h - 1
    /\ thisIndex h' = thisIndex h /\ ran h' = ran h /\ order h' = order h
    /\ same_setup h h'.
Proof.
  intros Hover. unfold iterator_next. cbn.
  destruct (thisTrialN h + 1 =? nStim h); cbn; rewrite Z.geb_leb.
  - destruct (Z.leb_spec (nReps h) (thisRepN h + 1)); [|lia].
    eexists. split; [reflexivity|]. cbn. repeat split; done || lia.
  - destruct (Z.leb_spec (nReps h) (thisRepN h)); [|lia].
    eexists. split; [reflexivity|]. cbn. repeat split; done || lia.
Qed.

(** ** C3: after exhaustion *)

Lemma advance_when_over k : forall h,
  nReps h <= thisRepN h ->
  exists hk,
    advance k h = Ok (hk, replicate k Done)
    /\ nReps hk <= thisRepN hk
    /\ (k <> 0%nat -> thisTrial hk = TNull)
    /\ thisN hk = thisN h + Z.of_nat k
    /\ nRemaining hk = nRemaining h - Z.of_nat k
    /\ thisIndex hk = thisIndex h /\ ran hk = ran h /\ order hk = order h
    /\ same_setup h hk.
Proof.
  induction k as [|k IH]; intros h Hover.
  - exists h. cbn. repeat split; done || lia.
  - destruct (next_when_over h Hover)
      as (h1 & E & O1 & T1 & N1 & R1 & I1 & A1 & B1 & S1).
    destruct (IH h1 O1) as (hk & Ek & Ok' & Tk & Nk & Rk & Ik & Ak & Bk & Sk).
    exists hk. cbn [advance]. rewrite E. cbn. rewrite Ek. cbn.
    split; [done|]. split; [done|].
    split.
    { intros _. destruct k; [|by apply Tk].
      cbn in Ek. by injection Ek as <-. }
    split; [lia|]. split; [lia|].
    split; [congruence|]. split; [congruence|]. split; [congruence|].
    by eapply same_setup_trans.
Qed.

(** C3 (as amended). Once a call of the iterator's [next] has reported
    [done], each of any number [k] of further calls reports [done] again
    and leaves [thisTrial] null; the trial index, [ran], [order], the
    finished flag, the ordering and the totals stay as they were. The
    calls are not no-ops on the counters: after [k] of them [thisN] is
    [k] higher and [nRemaining] is [k] lower. *)
Theorem exhausted_stays_exhausted h h' (k : nat) :
  iterator_next h = Ok (h', Done) ->
  exists hk,
    advance k h' = Ok (hk, replicate k Done)
    /\ thisTrial hk = TNull
    /\ nReps hk <= thisRepN hk
    /\ thisIndex hk = thisIndex h' /\ ran hk = ran h' /\ order hk = order h'
    /\ same_setup h' hk
    /\ thisN hk = thisN h' + Z.of_nat k
    /\ nRemaining hk = nRemaining h' - Z.of_nat k.
Proof.
  intros Hdone. apply done_means_over in Hdone as [Hover Hnull].
  destruct (advance_when_over k h' Hover)
    as (hk & E & O & T & N & R & I & A & B & S).
  exists hk. split; [done|].
  split.
  { destruct k; [|by apply T]. cbn in E. by injection E as <-. }
  do 6 (split; [assumption|]). assumption.
Qed.

Lemma exhausted_stays_exhausted_witness :
  exists h h',
    after 1 (options SEQUENTIAL 1 (ListArray [TObj [("word", VStr "a")]]))
    = Some h
    /\ iterator_next h = Ok (h', Done)
    /\ exists hk,
         advance 3 h' = Ok (hk, replicate 3 Done)
         /\ thisTrial hk = TNull
         /\ nReps hk <= thisRepN hk
         /\ thisIndex hk = thisIndex h' /\ ran hk = ran h'
         /\ order hk = order h'
         /\ same_setup h' hk
         /\ thisN hk = thisN h' + Z.of_nat 3
         /\ nRemaining hk = nRemaining h' - Z.of_nat 3.
Proof.
  eexists _, _. split; [vm_compute; reflexivity|].
  match goal with
  | |- iterator_next ?h = _ /\ _ =>
      split; [vm_compute; reflexivity
             | apply (exhausted_stays_exhausted h); vm_compute; reflexivity]
  end.
Defined.

(** C3 as stated fails: with one trial and one repetition the second
    call is the exhausted one, and the third call, exhausted again, still
    moves [thisN] from 1 to 2 and [nRemaining] from -1 to -2. *)
Lemma further_calls_move_counters :
  exists h h' h'',
    after 1 (options SEQUENTIAL 1 (ListArray [TObj [("word", VStr "a")]]))
    = Some h
    /\ iterator_next h = Ok (h', Done)
    /\ iterator_next h' = Ok (h'', Done)
    /\ thisN h' = 1 /\ thisN h'' = 2
    /\ nRemaining h' = -1 /\ nRemaining h'' = -2
    /\ thisTrialN h' = 0 /\ thisTrialN h'' = 0
    /\ thisRepN h' = 1 /\ thisRepN h'' = 2.
Proof.
  eexists _, _, _. split; [vm_compute; reflexivity|].
  split; [vm_compute; reflexivity|].
  split; [vm_compute; reflexivity|]. by vm_compute.
Qed.

(** ** C5: an empty trial list, zero repetitions *)

(** C5 (as amended). An empty trial list is replaced by the one-entry
    list [[undefined]]: the handler is the one built from that list, with
    nStim = 1 and nTotal = nReps. With nReps = 0, whatever the trial list,
    nTotal is 0, the ordering is the empty matrix, nRemaining starts at
    0, and every call of the iterator's [next], from the first on, reports
    [done], so no trial is ever produced; nRemaining is -k after k calls. *)
Theorem empty_list_and_zero_repeats o :
  (opt_trialList o = ListArray [] ->
     new o = new (with_trialList (ListArray [TUndefined]) o)
     /\ forall h, new o = Ok h ->
          trialList h = [TUndefined] /\ nStim h = 1 /\ nTotal h = opt_nReps o)
  /\ (opt_nReps o = 0 ->
      forall h, new o = Ok h ->
        nTotal h = 0 /\ _trialSequence h = [] /\ nRemaining h = 0
        /\ forall k : nat, exists hk,
             advance k h = Ok (hk, replicate k Done)
             /\ nRemaining hk = - Z.of_nat k).
Proof.
  split.
  - intros Hnil. split.
    + rewrite !new_stages. unfold start, with_trialList. cbn.
      rewrite Hnil. reflexivity.
    + intros h Hnew. apply new_fresh in Hnew. destruct Hnew.
      unfold prepared_list in *. rewrite Hnil in *.
      rewrite fresh_nStim0, fresh_prepared0 in *. cbn in *.
      repeat split; lia.
  - intros Hzero h Hnew. apply new_fresh in Hnew.
    pose proof (fresh_cursor_ok _ _ Hnew) as Hok. destruct Hnew.
    rewrite Hzero in *.
    assert (nTotal h = 0) as HT by lia.
    split; [done|].
    split; [apply nil_length_inv; by rewrite fresh_rows0, fresh_nReps0|].
    split; [lia|]. intros k.
    destruct (advance_when_over k h) as (hk & E & _ & _ & _ & R & _); [lia|].
    exists hk. split; [done|]. lia.
Qed.

Lemma empty_list_and_zero_repeats_witness :
  (exists h, new (options SEQUENTIAL 2 (ListArray [])) = Ok h
     /\ trialList h = [TUndefined] /\ nStim h = 1 /\ nTotal h = 2)
  /\ (exists h hk, new (options RANDOM 0 (ListArray words)) = Ok h
        /\ _trialSequence h = []
        /\ advance 4 h = Ok (hk, replicate 4 Done)
        /\ nRemaining hk = -4).
Proof.
  split.
  - eexists. split; [vm_compute; reflexivity|].
    match goal with
    | |- trialList ?h = _ /\ _ =>
        apply (proj1 (empty_list_and_zero_repeats
                        (options SEQUENTIAL 2 (ListArray [])))
                 eq_refl); vm_compute; reflexivity
    end.
  - eexists. 
    match goal with
    | |- exists hk, new ?o = Ok ?h /\ _ =>
        assert (new o = Ok h) as Hnew by (vm_compute; reflexivity);
        destruct (proj2 (empty_list_and_zero_repeats o) eq_refl h Hnew)
          as (_ & S & _ & A);
        destruct (A 4%nat) as (hk & E & R);
        exists hk; split; [exact Hnew|]; split; [exact S|];
        split; [exact E | exact R]
    end.
Defined.

(** C5 as stated fails on both counts: built from the empty list with
    two repetitions, the handler has nTotal = 2, a two-row ordering, and
    its first step yields a trial ([undefined]); built with zero
    repetitions, its nRemaining is -1 after the first step. *)
Lemma empty_list_is_one_undefined_trial :
  (exists h h',
     new (options SEQUENTIAL 2 (ListArray [])) = Ok h
     /\ nTotal h = 2 /\ _trialSequence h = [[0]; [0]]
     /\ iterator_next h = Ok (h', Yield TUndefined))
  /\ (exists h h',
        new (options SEQUENTIAL 0 (ListArray words)) = Ok h
        /\ nRemaining h = 0
        /\ iterator_next h = Ok (h', Done) /\ nRemaining h' = -1).
Proof.
  split; eexists _, _; (split; [vm_compute; reflexivity|]); by vm_compute.
Qed.

(** ** C2: the sequential ordering and its iteration *)

Lemma length_join_same {A} (w : nat) (ls : list (list A)) :
  Forall (fun l => length l = w) ls ->
  length (mjoin ls) = (length ls * w)%nat.
Proof.
  induction 1 as [|l ls Hl _ IH]; [done|].
  change (mjoin (l :: ls)) with (l ++ mjoin ls).
  rewrite length_app, IH, Hl. cbn. lia.
Qed.

(** Whatever the ordering, as long as its rows have nStim cells:
    [forEach] visits the cells of the ordering in row-major order, from
    the cell after the current one to the last, and returns. *)
Lemma forEach_visits_ordering fuel : forall h acc,
  cursor_ok h ->
  Forall (fun row => length row = Z.to_nat (nStim h)) (_trialSequence h) ->
  (length (mjoin (_trialSequence h)) - Z.to_nat (thisN h + 1) < fuel)%nat ->
  exists h',
    forEach fuel record_step h acc
    = Some (Ok (h', acc ++ ((fun i => (Some i, trial_at (trialList h) (Some i)))
                            <$> drop (Z.to_nat (thisN h + 1))
                                     (mjoin (_trialSequence h))))).
Proof.
  induction fuel as [|fuel IH]; intros h acc Hok Hrows Hfuel; [lia|].
  pose proof (length_join_same _ _ Hrows) as Hlen.
  destruct (iterator_next_ok h Hok)
    as (h1 & r & E & Hok1 & S1 & N1 & R1 & T1 & D1 & _ & Y1).
  pose proof Hok as []. pose proof Hok1 as [].
  destruct S1 as (S1 & S2 & _ & S3 & S4 & S5 & _).
  cbn [forEach]. rewrite E. destruct r as [|v].
  - exists h1. f_equal. f_equal. f_equal.
    rewrite drop_ge, app_nil_r; [done|].
    destruct D1 as [D1 _]. specialize (D1 eq_refl).
    rewrite Hlen, ok_rows0. nia.
  - destruct (Y1 v eq_refl) as (row & Hrow & Hidx & Hv & _).
    assert (~ nTotal h <= thisN h1) as Hlt.
    { intros Hle. apply D1 in Hle. discriminate. }
    assert (length row = Z.to_nat (nStim h)) as Hw.
    { eapply Forall_lookup_1 in Hrows; eauto. }
    destruct (lookup_lt_is_Some_2 row (Z.to_nat (thisTrialN h1)))
      as [x Hx]; [lia|].
    assert (thisIndex h1 = Some x) as Hix.
    { rewrite Hidx. unfold lookupZ.
      destruct (Z.ltb_spec (thisTrialN h1) 0); [lia | done]. }
    assert (mjoin (_trialSequence h) !! Z.to_nat (thisN h + 1) = Some x)
      as Hflat.
    { replace (Z.to_nat (thisN h + 1))
        with (Z.to_nat (thisRepN h1) * Z.to_nat (nStim h)
              + Z.to_nat (thisTrialN h1))%nat by nia.
      apply (join_lookup_Some_same_length' _ _ _ _ _ Hrows); [lia|].
      by exists row. }
    destruct (IH h1 (record_step h1 v acc) Hok1) as [h' E'].
    { by rewrite S5, S3. }
    { rewrite S5, N1. lia. }
    exists h'. rewrite E'. f_equal. f_equal. f_equal.
    rewrite S5, S1, N1. unfold record_step.
    rewrite (drop_S _ _ _ Hflat), fmap_cons, Hix, Hv, Hix.
    replace (Z.to_nat (thisN h + 1 + 1)) with (S (Z.to_nat (thisN h + 1)))
      by lia.
    by rewrite <- app_assoc.
Qed.

Lemma prepareSequence_sequential h :
  method h = SEQUENTIAL -> 0 <= nReps h < 2 ^ 32 ->
  _prepareSequence h
  = Ok (set_trialSequence
          (replicate (Z.to_nat (nReps h)) (keys_of (trialList h))) h).
Proof.
  intros Hm Hn. unfold _prepareSequence. rewrite Hm.
  destruct (Z.leb_spec 0 (nReps h)); [|lia].
  destruct (Z.ltb_spec (nReps h) (2 ^ 32)); [|lia]. reflexivity.
Qed.

Lemma new_sequential o l :
  opt_trialList o = ListArray l -> l <> [] ->
  opt_method o = Some SEQUENTIAL ->
  0 <= opt_nReps o < 2 ^ 32 ->
  exists h, new o = Ok h
    /\ trialList h = l
    /\ _trialSequence h = replicate (Z.to_nat (opt_nReps o)) (keys_of l).
Proof.
  intros Hl Hne Hm Hn. rewrite new_stages, Hl.
  unfold _prepareTrialList. destruct l as [|x l]; [done|].
  cbn [length Nat.eqb mbind result_bind].
  rewrite prepareSequence_sequential.
  - cbn [mbind result_bind]. eexists. split; [reflexivity|].
    unfold start. rewrite Hl. by cbn.
  - unfold start. cbn. by rewrite Hm.
  - unfold start. by cbn.
Qed.

Lemma length_keys_of {A} (l : list A) : length (keys_of l) = length l.
Proof. unfold keys_of. by rewrite length_fmap, length_seq. Qed.

(** C2. With a non-empty trial list, nReps > 0 (an array length) and the
    sequential method, the constructor succeeds; every row of the
    ordering is the identity [0, ..., nStim-1]; and [forEach] returns
    after visiting exactly nReps copies of that identity in a row,
    nReps * nStim trials in all, each the trial at the index visited. *)
Theorem sequential_iteration o l :
  opt_trialList o = ListArray l -> l <> [] ->
  opt_method o = Some SEQUENTIAL ->
  0 < opt_nReps o < 2 ^ 32 ->
  let n := Z.to_nat (opt_nReps o) in
  exists h,
    new o = Ok h
    /\ nStim h = Z.of_nat (length l)
    /\ _trialSequence h = replicate n (keys_of l)
    /\ Forall (fun row => row = Z.of_nat <$> seq 0 (length l)) (_trialSequence h)
    /\ length (mjoin (replicate n (keys_of l))) = (n * length l)%nat
    /\ forall fuel, (n * length l < fuel)%nat ->
         exists h',
           forEach fuel record_step h []
           = Some (Ok (h', (fun i => (Some i, trial_at l (Some i)))
                           <$> mjoin (replicate n (keys_of l)))).
Proof.
  intros Hl Hne Hm Hn n. subst n.
  destruct (new_sequential o l Hl Hne Hm) as (h & Hnew & Hlist & Hseq); [lia|].
  pose proof (new_fresh _ _ Hnew) as Hf.
  pose proof (fresh_cursor_ok _ _ Hf) as Hok. destruct Hf.
  assert (Forall (fun row : list Z => length row = length l)
            (replicate (Z.to_nat (opt_nReps o)) (keys_of l))) as Hrows.
  { apply Forall_replicate, length_keys_of. }
  exists h. split; [done|]. split; [by rewrite fresh_nStim0, Hlist|].
  split; [done|].
  split; [rewrite Hseq; by apply Forall_replicate|].
  split; [by rewrite (length_join_same _ _ Hrows), length_replicate|].
  intros fuel Hfuel.
  destruct (forEach_visits_ordering fuel h [] Hok) as [h' E].
  - rewrite Hseq, fresh_nStim0, Hlist, Nat2Z.id. exact Hrows.
  - rewrite Hseq, (length_join_same _ _ Hrows), length_replicate. lia.
  - exists h'. rewrite E, fresh_thisN0, Hseq, Hlist. by cbn.
Qed.

Lemma sequential_iteration_witness :
  exists h h',
    new (options SEQUENTIAL 2 (ListArray words)) = Ok h
    /\ _trialSequence h = [[0; 1; 2]; [0; 1; 2]]
    /\ forEach 7 record_step h []
       = Some (Ok (h', [(Some 0, TObj [("word", VStr "a")]);
                        (Some 1, TObj [("word", VStr "b")]);
                        (Some 2, TObj [("word", VStr "c")]);
                        (Some 0, TObj [("word", VStr "a")]);
                        (Some 1, TObj [("word", VStr "b")]);
                        (Some 2, TObj [("word", VStr "c")])])).
Proof.
  destruct (sequential_iteration (options SEQUENTIAL 2 (ListArray words)) words)
    as (h & Hnew & _ & Hseq & _ & _ & Hrun);
    [reflexivity | discriminate | reflexivity | vm_compute; by split |].
  destruct (Hrun 7%nat) as [h' E]; [vm_compute; lia|].
  exists h, h'. split; [exact Hnew|]. split; [exact Hseq|]. exact E.
Defined.

(** ** C8: the fully random ordering *)

Lemma drawn_index_in_range (r : Q) (i : nat) :
  (0 <= r)%Q -> (r < 1)%Q ->
  (Z.to_nat (Qfloor (r * inject_Z (Z.of_nat i + 1))) <= i)%nat.
Proof.
  intros H0 H1.
  assert (0 < inject_Z (Z.of_nat i + 1))%Q as Hpos.
  { rewrite <- (Zlt_Qlt 0). lia. }
  assert (Qfloor (r * inject_Z (Z.of_nat i + 1)) < Z.of_nat i + 1) as Hlt.
  { rewrite Zlt_Qlt. eapply Qle_lt_trans; [apply Qfloor_le|].
    rewrite <- (Qmult_1_l (inject_Z (Z.of_nat i + 1))) at 2.
    by apply Qmult_lt_compat_r. }
  lia.
Qed.

Lemma swap_in_range (a : list Z) (i j : nat) :
  (j <= i)%nat -> (i < length a)%nat ->
  exists x y, a !! i = Some x /\ a !! j = Some y
    /\ swap a i j = <[j := x]> (<[i := y]> a)
    /\ swap a i j ≡ₚ a /\ length (swap a i j) = length a.
Proof.
  intros Hj Hi.
  destruct (lookup_lt_is_Some_2 a i) as [x Hx]; [lia|].
  destruct (lookup_lt_is_Some_2 a j) as [y Hy]; [lia|].
  exists x, y. unfold swap. rewrite Hx, Hy.
  repeat split; [by apply Permutation_insert_swap|].
  by rewrite !length_insert.
Qed.

(** Every swap of the shuffle is between two cells of the array, so the
    result is a rearrangement of it; the shuffle draws once per swap. *)
Lemma shuffle_from_spec i : forall a g,
  unit_interval (draws g) -> (i < length a)%nat ->
  (shuffle_from i a g).1 ≡ₚ a
  /\ length (shuffle_from i a g).1 = length a
  /\ draws (shuffle_from i a g).2 = draws g
  /\ consumed (shuffle_from i a g).2 = (consumed g + i)%nat.
Proof.
  induction i as [|i IH]; intros a g Hu Hi.
  - cbn. repeat split; [done | lia].
  - cbn [shuffle_from].
    set (j := Z.to_nat (Qfloor (draws g (consumed g)
                                * inject_Z (Z.of_nat (S i) + 1)))).
    assert (j <= S i)%nat as Hj.
    { destruct (Hu (consumed g)). by apply drawn_index_in_range. }
    destruct (swap_in_range a (S i) j Hj Hi) as (x & y & _ & _ & _ & P & L).
    destruct (IH (swap a (S i) j)
                {| draws := draws g; consumed := S (consumed g) |})
      as (P' & L' & D' & C'); [done | lia |].
    cbn in D', C'. split; [by rewrite P'|].
    split; [lia|]. split; [done | lia].
Qed.

Lemma shuffle_spec a g :
  unit_interval (draws g) ->
  (shuffle a g).1 ≡ₚ a /\ length (shuffle a g).1 = length a
  /\ draws (shuffle a g).2 = draws g
  /\ consumed (shuffle a g).2 = (consumed g + (length a - 1))%nat.
Proof.
  intros Hu. destruct a as [|x a].
  - cbn. repeat split; [done | lia].
  - apply shuffle_from_spec; [done | cbn; lia].
Qed.

Lemma flat_rows_join n : forall (indices acc : list Z),
  flat_rows n indices acc = acc ++ mjoin (replicate n indices).
Proof.
  induction n as [|n IH]; intros indices acc; cbn.
  - by rewrite app_nil_r.
  - rewrite IH, <- app_assoc. done.
Qed.

Lemma slice_row (flat : list Z) (i w : nat) :
  (i * w + w <= length flat)%nat ->
  slice flat (Z.of_nat i * Z.of_nat w) ((Z.of_nat i + 1) * Z.of_nat w)
  = take w (drop (i * w) flat).
Proof.
  intros H. unfold slice, slice_index.
  destruct (Z.ltb_spec (Z.of_nat i * Z.of_nat w) 0); [lia|].
  destruct (Z.ltb_spec ((Z.of_nat i + 1) * Z.of_nat w) 0); [lia|].
  f_equal; [|f_equal]; nia.
Qed.

Lemma reshape_rows_reshape n : forall (i w : nat) (flat : list Z) acc,
  ((i + n) * w <= length flat)%nat ->
  reshape_rows n (Z.of_nat i) flat (Z.of_nat w) acc
  = acc ++ reshape (replicate n w) (drop (i * w) flat).
Proof.
  induction n as [|n IH]; intros i w flat acc H; cbn.
  - by rewrite app_nil_r.
  - replace (Z.of_nat i + 1) with (Z.of_nat (S i)) by lia.
    rewrite IH by lia.
    replace (Z.of_nat (S i)) with (Z.of_nat i + 1) by lia.
    rewrite slice_row by lia.
    rewrite <- app_assoc, drop_drop. cbn.
    by replace (w + i * w)%nat with (i * w + w)%nat by lia.
Qed.

Lemma sum_list_replicate n w : sum_list (replicate n w) = (n * w)%nat.
Proof. induction n as [|n IH]; cbn; [done | by rewrite IH]. Qed.

Lemma Forall_length_reshape {A} n w : forall l : list A,
  (n * w <= length l)%nat ->
  Forall (fun row => length row = w) (reshape (replicate n w) l).
Proof.
  induction n as [|n IH]; intros l H; cbn; constructor.
  - rewrite length_take. lia.
  - apply IH. rewrite length_drop. lia.
Qed.

Lemma prepareSequence_full_random h h' :
  method h = FULL_RANDOM ->
  _prepareSequence h = Ok h' ->
  let shuffled :=
    shuffle (flat_rows (Z.to_nat (nReps h)) (keys_of (trialList h)) [])
            (_randomNumberGenerator h) in
  h' = set_trialSequence
         (reshape_rows (Z.to_nat (nReps h)) 0 shuffled.1 (nStim h) [])
         (set_rng shuffled.2 h).
Proof.
  intros Hm. unfold _prepareSequence. rewrite Hm.
  destruct (_ && _); [|discriminate]. cbn zeta.
  destruct (shuffle _ _). by intros [= <-].
Qed.

Lemma new_full_random o h :
  opt_method o = Some FULL_RANDOM -> new o = Ok h ->
  let shuffled :=
    shuffle (flat_rows (Z.to_nat (opt_nReps o)) (keys_of (prepared_list o)) [])
            {| draws := opt_seed o; consumed := 0 |} in
  trialList h = prepared_list o
  /\ _trialSequence h
     = reshape_rows (Z.to_nat (opt_nReps o)) 0 shuffled.1
         (Z.of_nat (length (prepared_list o))) []
  /\ _randomNumberGenerator h = shuffled.2.
Proof.
  intros Hm. rewrite new_stages.
  destruct (_prepareTrialList o _ (start o)) as [h1| |] eqn:E1;
    try discriminate.
  apply prepareTrialList_nonempty in E1 as (Hne & ->); [|done].
  cbn [mbind result_bind].
  destruct (_prepareSequence _) as [h3| |] eqn:E2; try discriminate.
  apply prepareSequence_full_random in E2; [|cbn; by rewrite Hm].
  cbn [mbind result_bind]. intros [= <-]. subst h3.
  repeat split; reflexivity.
Qed.

Lemma length_join_replicate {A} n (l : list A) :
  length (mjoin (replicate n l)) = (n * length l)%nat.
Proof.
  rewrite (length_join_same (length l)), length_replicate; [done|].
  by apply Forall_replicate.
Qed.

Lemma unit_interval_third : unit_interval (fun _ => 1 # 3)%Q.
Proof. intros k. split; by compute. Qed.

(** C8. With the fully random method, nReps >= 0 and a random source
    whose draws lie in [0, 1): the flat sequence is nReps copies of
    [0, ..., nStim-1], of length nReps * nStim; it is shuffled once as a
    whole (one call, nReps * nStim - 1 draws) and cut back into nReps
    rows of nStim cells. So the rows taken together are a rearrangement
    of nReps copies of [0, ..., nStim-1]. A single row need not be a
    permutation: with two trials, two repetitions and every draw 1/3, the
    first row is [0, 0]. *)
Theorem full_random_ordering o h :
  opt_method o = Some FULL_RANDOM ->
  0 <= opt_nReps o ->
  unit_interval (opt_seed o) ->
  new o = Ok h ->
  let n := Z.to_nat (opt_nReps o) in
  let w := length (trialList h) in
  let flat := mjoin (replicate n (keys_of (trialList h))) in
  let shuffled := shuffle flat {| draws := opt_seed o; consumed := 0 |} in
  (nStim h = Z.of_nat w /\ length flat = (n * w)%nat
   /\ Z.of_nat (length flat) = opt_nReps o * nStim h
   /\ shuffled.1 ≡ₚ flat
   /\ _trialSequence h = reshape (replicate n w) shuffled.1
   /\ _randomNumberGenerator h = shuffled.2
   /\ consumed (_randomNumberGenerator h) = (n * w - 1)%nat
   /\ length (_trialSequence h) = n
   /\ Forall (fun row => length row = w) (_trialSequence h)
   /\ mjoin (_trialSequence h) ≡ₚ flat)
  /\ (exists o' h',
        opt_method o' = Some FULL_RANDOM /\ unit_interval (opt_seed o')
        /\ new o' = Ok h' /\ nStim h' = 2
        /\ _trialSequence h' = [[0; 0]; [1; 1]]).
Proof.
  intros Hm Hn Hu Hnew n w flat shuffled. split.
  - pose proof (new_fresh _ _ Hnew) as Hf. destruct Hf.
    destruct (new_full_random o h Hm Hnew) as (Hl & Hseq & Hg).
    rewrite flat_rows_join in Hseq, Hg. cbn [app] in Hseq, Hg.
    rewrite <- Hl in Hseq, Hg. fold w n flat in Hseq, Hg.
    fold shuffled in Hseq, Hg.
    destruct (shuffle_spec flat {| draws := opt_seed o; consumed := 0 |} Hu)
      as (P & L & D & C).
    fold shuffled in P, L, D, C. cbn [consumed] in C.
    assert (length flat = (n * w)%nat) as Hflat.
    { unfold flat. by rewrite length_join_replicate, length_keys_of. }
    assert (reshape_rows n 0 shuffled.1 (Z.of_nat w) []
            = reshape (replicate n w) shuffled.1) as Hrows.
    { apply (reshape_rows_reshape n 0 w shuffled.1 []). rewrite L, Hflat. lia. }
    rewrite Hrows in Hseq.
    split; [done|]. split; [done|]. split; [rewrite fresh_nStim0; lia|].
    split; [done|]. split; [done|].
    split; [done|]. split; [rewrite Hg, C; lia|].
    rewrite Hseq.
    split; [by rewrite length_reshape, length_replicate|].
    split; [apply Forall_length_reshape; lia|].
    rewrite join_reshape; [done|]. rewrite sum_list_replicate. lia.
  - exists (with_seed (fun _ => 1 # 3)%Q
              (options FULL_RANDOM 2 (ListArray pair))).
    eexists. split; [done|]. split; [apply unit_interval_third|].
    split; [vm_compute; reflexivity|]. by vm_compute.
Qed.

Lemma full_random_ordering_witness :
  exists h,
    new (with_seed (fun _ => 1 # 3)%Q (options FULL_RANDOM 2 (ListArray words)))
    = Ok h
    /\ length (_trialSequence h) = 2%nat
    /\ Forall (fun row => length row = 3%nat) (_trialSequence h)
    /\ mjoin (_trialSequence h) ≡ₚ [0; 1; 2; 0; 1; 2].
Proof.
  eexists. split; [vm_compute; reflexivity|].
  match goal with
  | |- length (_trialSequence ?h) = _ /\ _ =>
      destruct (full_random_ordering
                  (with_seed (fun _ => 1 # 3)%Q
                     (options FULL_RANDOM 2 (ListArray words))) h)
        as [(_ & _ & _ & _ & _ & _ & _ & L & F & P) _];
        [reflexivity | by compute | apply unit_interval_third
        | vm_compute; reflexivity |]
  end.
  split; [exact L|]. split; [exact F | exact P].
Defined.

(** ** C9 and C6: the lookups *)

Lemma trial_at_undefined (l : list trial) (z : Z) :
  trial_at l (Some z) = TUndefined
  <-> z < 0 \/ Z.of_nat (length l) <= z
      \/ l !! Z.to_nat z = Some TUndefined.
Proof.
  unfold trial_at, lookupZ.
  destruct (Z.ltb_spec z 0) as [Hneg|Hpos]; cbn.
  - split; [by left | done].
  - destruct (l !! Z.to_nat z) as [x|] eqn:Hx; cbn.
    + apply lookup_lt_Some in Hx as Hlt. split.
      * intros ->. by right; right.
      * intros [?|[?|[= ->]]]; [lia | lia | done].
    + apply lookup_ge_None in Hx. split; [|done]. intros _. right; left. lia.
Qed.

(** What [getFutureTrial(n)] answers: with thisIndex = i, [undefined]
    when i + n < 0 or n > nRemaining, and the entry i + n of the trial
    list otherwise; so [undefined] exactly when i + n is outside
    [0, length of the trial list), or n > nRemaining, or the entry stored
    there is itself [undefined]. *)
Lemma getFutureTrial_result h n i :
  thisIndex h = Some i ->
  (getFutureTrial h n).1 = h
  /\ (i + n < 0 \/ nRemaining h < n -> (getFutureTrial h n).2 = TUndefined)
  /\ (0 <= i + n -> n <= nRemaining h ->
      (getFutureTrial h n).2 = trial_at (trialList h) (Some (i + n)))
  /\ ((getFutureTrial h n).2 = TUndefined
      <-> i + n < 0 \/ nRemaining h < n
          \/ Z.of_nat (length (trialList h)) <= i + n
          \/ trialList h !! Z.to_nat (i + n) = Some TUndefined).
Proof.
  intros Hi. unfold getFutureTrial. rewrite Hi.
  rewrite Z.gtb_ltb.
  destruct (Z.ltb_spec (i + n) 0) as [Hneg|Hpos];
    destruct (Z.ltb_spec (nRemaining h) n) as [Hfar|Hnear];
    cbn [orb fst snd].
  - repeat split; auto; lia.
  - repeat split; auto; lia.
  - repeat split; auto; lia.
  - split; [done|]. split; [lia|]. split; [done|].
    rewrite trial_at_undefined. split.
    + intros [?|[?|?]]; auto; lia.
    + intros [?|[?|[?|?]]]; auto; lia.
Qed.

(** C9 (the code at the failing input). [getFutureTrial(n)] changes
    nothing in the handler and, past its two guards, answers
    [trialList[thisIndex + n]]: it looks in the trial list, not in the
    ordering. For three trials, two repetitions and the sequential
    method: right after construction thisIndex = 0, nTotal = 6 and
    nRemaining = 6, so thisIndex + 4 lies in [0, nTotal) and 4 does not
    exceed nRemaining, yet [getFutureTrial(4)] is [undefined], while the
    fourth step yields the trial a; and after three steps (thisIndex = 2,
    nRemaining = 3) [getFutureTrial(1)] is [undefined], while the step
    that follows yields the trial a. *)
Theorem getFutureTrial_reads_the_list :
  (forall h n, (getFutureTrial h n).1 = h)
  /\ (forall h n i,
        thisIndex h = Some i -> 0 <= i + n -> n <= nRemaining h ->
        (getFutureTrial h n).2 = trial_at (trialList h) (Some (i + n)))
  /\ exists h h3 h4 rs,
       new (options SEQUENTIAL 2 (ListArray words)) = Ok h
       /\ thisIndex h = Some 0 /\ nTotal h = 6 /\ nRemaining h = 6
       /\ getFutureTrial h 4 = (h, TUndefined)
       /\ advance 3 h = Ok (h3, rs)
       /\ thisIndex h3 = Some 2 /\ nRemaining h3 = 3
       /\ getFutureTrial h3 1 = (h3, TUndefined)
       /\ iterator_next h3 = Ok (h4, Yield (TObj [("word", VStr "a")])).
Proof.
  split; [|split].
  - intros h n. unfold getFutureTrial.
    destruct (thisIndex h); [|done]. by destruct (_ || _).
  - intros h n i Hi Hpos Hnear.
    by destruct (getFutureTrial_result h n i Hi) as (_ & _ & H & _); auto.
  - eexists _, _, _, _. split; [vm_compute; reflexivity|].
    do 4 (split; [vm_compute; reflexivity|]).
    split; [vm_compute; reflexivity|].
    do 3 (split; [vm_compute; reflexivity|]).
    vm_compute; reflexivity.
Qed.

(** C6 (the code at the failing input, and the part that holds).
    [getEarlierTrial] throws a ReferenceError in every state and for
    every argument: it never returns. [getTrial] never throws: it answers
    [undefined] for an index below 0 or above nTotal, and the entry of
    the trial list at the index otherwise, nTotal included. *)
Theorem getEarlierTrial_throws h n index :
  getEarlierTrial h n = Throw (ReferenceError "getFutureTrial")
  /\ (index < 0 \/ nTotal h < index -> getTrial h index = (h, TUndefined))
  /\ (0 <= index <= nTotal h ->
      getTrial h index = (h, trial_at (trialList h) (Some index))).
Proof.
  split; [reflexivity|]. unfold getTrial. rewrite Z.gtb_ltb.
  destruct (Z.ltb_spec index 0); destruct (Z.ltb_spec (nTotal h) index);
    cbn; split; intros; done || lia.
Qed.

(** ** C7: reserved names in a snapshot *)

(** C7 (the code at the failing input). [attribute in excludedAttributes]
    is false for each of the ten reserved names: the test looks at the
    indices of the array, not at its elements. For a trial with the
    fields nStim = 99, length = 7 and word = "a": the snapshot's nStim is
    99, not the handler's 1, with no warning for it; the field [length],
    which is not reserved, is the one left out, with a warning. *)
Theorem reserved_names_are_not_excluded :
  Forall (fun k => in_array k excludedAttributes = false) excludedAttributes
  /\ exists h,
       after 1 (options SEQUENTIAL 1
                  (ListArray [TObj [("nStim", VNum 99); ("length", VNum 7);
                                    ("word", VStr "a")]])) = Some h
       /\ nStim h = 1
       /\ let h' := (getSnapshot h).1 in
          let i := (getSnapshot h).2 in
          snapshot_field h' i "nStim" = VNum 99
          /\ snapshot_field h' i "word" = VStr "a"
          /\ snapshot_field h' i "length" = VUndefined
          /\ snapshot_field h' i "trialAttributes" = VNames ["nStim"; "word"]
          /\ warnings h'
             = ["attempt to replace the value of protected TrialHandler variable: length"].
Proof.
  split.
  - apply Forall_forall. intros k Hk.
    repeat (apply elem_of_cons in Hk as [->|Hk]; [vm_compute; reflexivity|]).
    by apply elem_of_nil in Hk.
  - eexists. split; [vm_compute; reflexivity|]. by vm_compute.
Qed.

(** ** C4: capture, then restore *)

Lemma capture_attribute_step fs s0 l0 w0 k :
  exists s1 l1 w1,
    capture_attribute fs (s0, l0, w0) k = (s1, l1, w1)
    /\ s1 !! "trialAttributes" = Some (VNames l1)
    /\ (forall p, p <> k -> p <> "trialAttributes" -> s1 !! p = s0 !! p)
    /\ (forall x, x ∈ l1 -> x ∈ l0 \/ x = k).
Proof.
  unfold capture_attribute.
  destruct (negb (in_array k excludedAttributes)).
  - eexists _, _, _. split; [reflexivity|].
    split; [by rewrite lookup_insert_eq|]. split.
    + intros p Hk Ht. by rewrite !lookup_insert_ne.
    + intros x Hx. apply elem_of_app in Hx as [?|Hx]; [by left|].
      apply list_elem_of_singleton in Hx. by right.
  - eexists _, _, _. split; [reflexivity|].
    split; [by rewrite lookup_insert_eq|]. split.
    + intros p Hk Ht. by rewrite lookup_insert_ne.
    + intros x Hx. by left.
Qed.

Lemma capture_attributes_fold fs ks : forall s0 l0 w0,
  exists s l w,
    foldl (capture_attribute fs) (s0, l0, w0) ks = (s, l, w)
    /\ (ks <> [] -> s !! "trialAttributes" = Some (VNames l))
    /\ (forall p, p ∉ ks -> p <> "trialAttributes" -> s !! p = s0 !! p)
    /\ (forall x, x ∈ l -> x ∈ l0 \/ x ∈ ks).
Proof.
  induction ks as [|k ks IH]; intros s0 l0 w0.
  - exists s0, l0, w0. cbn. repeat split; [done | by left].
  - destruct (capture_attribute_step fs s0 l0 w0 k)
      as (s1 & l1 & w1 & E1 & T1 & F1 & M1).
    destruct (IH s1 l1 w1) as (s & l & w & E & T & F & M).
    exists s, l, w. cbn [foldl]. rewrite E1.
    split; [done|]. split; [|split].
    + intros _. destruct ks as [|k' ks]; [|by apply T].
      cbn in E. by injection E as <- <- <-.
    + intros p Hp Ht. apply not_elem_of_cons in Hp as [Hk Hp].
      rewrite F by done. by apply F1.
    + intros x Hx. destruct (M x Hx) as [Hx1|Hx1].
      * destruct (M1 x Hx1) as [Hx2|Hx2]; [by left|].
        subst x. right. apply elem_of_cons. by left.
      * right. apply elem_of_cons. by right.
Qed.

Ltac in_list := apply (bool_decide_unpack _); by vm_compute.

Lemma members_protected k : k ∈ members -> k ∈ protected.
Proof. intros H. unfold protected. apply elem_of_app. by right. Qed.

Lemma protected_not_key ks p :
  Forall (fun k => k ∉ protected) ks -> p ∈ protected -> p ∉ ks.
Proof.
  intros Hks Hp Hin. rewrite Forall_forall in Hks. by apply (Hks p).
Qed.

Lemma same_cursor_refl h : same_cursor h h.
Proof. by repeat split. Qed.

Lemma same_cursor_trans h1 h2 h3 :
  same_cursor h1 h2 -> same_cursor h2 h3 -> same_cursor h1 h3.
Proof.
  unfold same_cursor. intros H12 H23. destruct_and!.
  repeat split; congruence.
Qed.

(** Assigning a field that is not protected leaves the cursor alone. *)
Lemma assign_unprotected k v h :
  k ∉ protected ->
  exists h', assign k v h = Ok h' /\ same_cursor h h'.
Proof.
  intros Hk. unfold assign.
  destruct (decide (k = "nStim")) as [->|_]; [exfalso; apply Hk; in_list|].
  destruct (decide (k = "nTotal")) as [->|_]; [exfalso; apply Hk; in_list|].
  destruct (decide (k = "nRemaining")) as [->|_];
    [exfalso; apply Hk; in_list|].
  destruct (decide (k = "thisRepN")) as [->|_]; [exfalso; apply Hk; in_list|].
  destruct (decide (k = "thisTrialN")) as [->|_];
    [exfalso; apply Hk; in_list|].
  destruct (decide (k = "thisN")) as [->|_]; [exfalso; apply Hk; in_list|].
  destruct (decide (k = "thisIndex")) as [->|_];
    [exfalso; apply Hk; in_list|].
  destruct (decide (k = "ran")) as [->|_]; [exfalso; apply Hk; in_list|].
  destruct (decide (k = "order")) as [->|_]; [exfalso; apply Hk; in_list|].
  destruct (decide (k = "_finished")) as [->|_].
  { eexists. split; [reflexivity | by repeat split]. }
  destruct (decide (k = "finished")) as [->|_].
  { eexists. split; [reflexivity | by repeat split]. }
  destruct (bool_decide (k ∈ members)) eqn:Hm.
  { apply bool_decide_eq_true in Hm. by apply members_protected in Hm. }
  eexists. split; [reflexivity | by repeat split].
Qed.

Lemma assign_all_unprotected s l : forall h,
  Forall (fun k => k ∉ protected) l ->
  exists h', assign_all s l h = Ok h' /\ same_cursor h h'.
Proof.
  induction l as [|k l IH]; intros h Hl.
  - exists h. split; [done | apply same_cursor_refl].
  - apply Forall_cons in Hl as [Hk Hl].
    destruct (assign_unprotected k (get s k) h Hk) as (h1 & E1 & S1).
    destruct (IH h1 Hl) as (h' & E & S).
    exists h'. cbn [assign_all]. rewrite E1. cbn [mbind result_bind].
    split; [done | by eapply same_cursor_trans].
Qed.

(** [fromSnapshot] on a snapshot whose reserved fields are intact. *)
Lemma fromSnapshot_assigns h i s l a b c d e f x r :
  _snapshots h !! i = Some s ->
  get s "handler" = VHandler ->
  get s "nStim" = VNum a -> get s "nTotal" = VNum b ->
  get s "nRemaining" = VNum c -> get s "thisRepN" = VNum d ->
  get s "thisTrialN" = VNum e -> get s "thisN" = VNum f ->
  get s "thisIndex" = number x -> get s "ran" = VNum r ->
  get s "trialAttributes" = VNames l ->
  fromSnapshot (Some i) h
  = assign_all s l
      (set_thisTrial (trial_at (trialList h) x)
         (set__finished (get s "_finished")
            (set_ran r (set_thisIndex x (set_thisN f (set_thisTrialN e
               (set_thisRepN d (set_nRemaining c (set_nTotal b
                  (set_nStim a h)))))))))).
Proof.
  intros Hs Hh Ha Hb Hc Hd He Hf Hx Hr Hl. unfold fromSnapshot.
  rewrite Hs, Hh, Ha, Hb, Hc, Hd, He, Hf, Hx, Hr, Hl.
  destruct x; reflexivity.
Qed.

Lemma snapshot_literal_fields h :
  snapshot_literal h !! "handler" = Some VHandler
  /\ snapshot_literal h !! "nStim" = Some (VNum (nStim h))
  /\ snapshot_literal h !! "nTotal" = Some (VNum (nTotal h))
  /\ snapshot_literal h !! "nRemaining" = Some (VNum (nRemaining h))
  /\ snapshot_literal h !! "thisRepN" = Some (VNum (thisRepN h))
  /\ snapshot_literal h !! "thisTrialN" = Some (VNum (thisTrialN h))
  /\ snapshot_literal h !! "thisN" = Some (VNum (thisN h))
  /\ snapshot_literal h !! "thisIndex" = Some (number (thisIndex h))
  /\ snapshot_literal h !! "ran" = Some (VNum (ran h))
  /\ snapshot_literal h !! "finished" = Some (_finished h).
Proof. by vm_compute. Qed.

Lemma yielded_is_current h0 h v :
  iterator_next h0 = Ok (h, Yield v) -> thisTrial h = getCurrentTrial h.
Proof.
  unfold iterator_next. cbn.
  destruct (thisTrialN h0 + 1 =? nStim h0); cbn;
    destruct (_ >=? _); try discriminate;
    destruct (lookupZ _ _); try discriminate;
    by intros [= <- _].
Qed.

(** C4 (as amended). When the trial the cursor points at is an object
    with at least one field, none of them named like a member of the
    handler or a reserved field of the snapshot: [getSnapshot] followed at
    once by [fromSnapshot] of that snapshot succeeds and leaves nStim,
    nTotal, nRemaining, thisRepN, thisTrialN, thisN, thisIndex and ran as
    they were (and the trial list, the ordering, nReps and order);
    [thisTrial] becomes the trial at thisIndex, which is what it was
    whenever the handler came out of a step that yielded a trial. The
    finished flag is not part of this statement. *)
Theorem capture_then_restore h fs :
  getCurrentTrial h = TObj fs ->
  fs <> [] ->
  Forall (fun k => k ∉ protected) fs.*1 ->
  exists h2,
    fromSnapshot (Some (getSnapshot h).2) (getSnapshot h).1 = Ok h2
    /\ counters h2 = counters h
    /\ thisTrial h2 = getCurrentTrial h
    /\ trialList h2 = trialList h
    /\ _trialSequence h2 = _trialSequence h
    /\ nReps h2 = nReps h /\ order h2 = order h
    /\ (forall h0 v, iterator_next h0 = Ok (h, Yield v) ->
          thisTrial h2 = thisTrial h).
Proof.
  intros Hcur Hne Hprot. unfold getSnapshot. rewrite Hcur.
  destruct (capture_attributes_fold fs fs.*1 (snapshot_literal h) [] [])
    as (s & l & w & E & T & F & M).
  rewrite E. cbn [fst snd set_warnings set_snapshots _snapshots].
  assert (fs.*1 <> []) as Hkeys by (by destruct fs).
  specialize (T Hkeys).
  destruct (snapshot_literal_fields h)
    as (L0 & L1 & L2 & L3 & L4 & L5 & L6 & L7 & L8 & _).
  assert (forall p, p ∈ protected -> s !! p = snapshot_literal h !! p) as Hkeep.
  { intros p Hp. apply F; [by apply protected_not_key|].
    intros ->. revert Hp. apply (bool_decide_unpack _). by vm_compute. }
  assert (Forall (fun k => k ∉ protected) l) as Hl.
  { apply Forall_forall. intros k Hk.
    destruct (M k Hk) as [Hnil|Hin]; [by apply elem_of_nil in Hnil|].
    rewrite Forall_forall in Hprot. by apply Hprot. }
  erewrite (fromSnapshot_assigns _ _ s l).
  - match goal with
    | |- exists h2, assign_all s l ?h1 = _ /\ _ =>
        destruct (assign_all_unprotected s l h1 Hl)
          as (h2 & E2 & C2 & T2 & A2 & B2 & N2 & O2)
    end.
    exists h2. split; [exact E2|].
    split; [by rewrite C2|]. split; [by rewrite T2|].
    split; [by rewrite A2|]. split; [by rewrite B2|].
    split; [by rewrite N2|]. split; [by rewrite O2|].
    intros h0 v Hy. rewrite T2. symmetry. by eapply yielded_is_current.
  - cbn [_snapshots]. apply list_lookup_middle. done.
  - unfold get. rewrite Hkeep, L0 by in_list. done.
  - unfold get. rewrite Hkeep, L1 by in_list. done.
  - unfold get. rewrite Hkeep, L2 by in_list. done.
  - unfold get. rewrite Hkeep, L3 by in_list. done.
  - unfold get. rewrite Hkeep, L4 by in_list. done.
  - unfold get. rewrite Hkeep, L5 by in_list. done.
  - unfold get. rewrite Hkeep, L6 by in_list. done.
  - unfold get. rewrite Hkeep, L7 by in_list. done.
  - unfold get. rewrite Hkeep, L8 by in_list. done.
  - unfold get. by rewrite T.
Qed.

Lemma capture_then_restore_witness :
  exists h h2,
    after 1 (options SEQUENTIAL 2 (ListArray words)) = Some h
    /\ fromSnapshot (Some (getSnapshot h).2) (getSnapshot h).1 = Ok h2
    /\ counters h2 = (3, 6, 5, 0, 0, 0, Some 0, 1)
    /\ thisTrial h2 = TObj [("word", VStr "a")].
Proof.
  eexists. 
  match goal with
  | |- exists h2, after 1 ?o = Some ?h /\ _ =>
      assert (after 1 o = Some h) as Hh by (vm_compute; reflexivity);
      destruct (capture_then_restore h [("word", VStr "a")])
        as (h2 & E & C & T & _);
        [ vm_compute; reflexivity
        | discriminate
        | repeat constructor; apply (bool_decide_unpack _); by vm_compute
        | exists h2; split; [exact Hh|]; split; [exact E|]; split;
          [rewrite C; vm_compute; reflexivity
          | rewrite T; vm_compute; reflexivity] ]
  end.
Defined.

(** C4 as stated fails: right after construction [thisTrial] is null and
    the finished flag is false; after [getSnapshot] and [fromSnapshot]
    of that snapshot [thisTrial] is the first trial and the finished flag
    is [undefined] ([fromSnapshot] reads the snapshot's [_finished], a
    field that [getSnapshot] never writes). *)
Lemma restore_changes_thisTrial_and_finished :
  exists h,
    new (options SEQUENTIAL 2 (ListArray words)) = Ok h
    /\ thisTrial h = TNull /\ _finished h = VBool false
    /\ match fromSnapshot (Some (getSnapshot h).2) (getSnapshot h).1 with
       | Ok h2 => thisTrial h2 = TObj [("word", VStr "a")]
                  /\ _finished h2 = VUndefined
       | _ => False
       end.
Proof. eexists. split; [vm_compute; reflexivity|]. by vm_compute. Qed.

(** A trial without fields leaves the snapshot without [trialAttributes],
    and [fromSnapshot] throws on it: so for the handler built from no
    trial list at all. *)
Lemma restore_throws_without_fields :
  exists h,
    new (options SEQUENTIAL 2 ListUndefined) = Ok h
    /\ fromSnapshot (Some (getSnapshot h).2) (getSnapshot h).1
       = Throw TypeError.
Proof. eexists. split; [vm_compute; reflexivity|]. by vm_compute. Qed.

(** A trial field named like a counter reaches the handler through the
    snapshot: nStim is 1 before and 99 after. *)
Lemma restore_takes_counters_from_the_trial :
  exists h,
    after 1 (options SEQUENTIAL 1
               (ListArray [TObj [("nStim", VNum 99); ("word", VStr "a")]]))
    = Some h
    /\ nStim h = 1
    /\ match fromSnapshot (Some (getSnapshot h).2) (getSnapshot h).1 with
       | Ok h2 => nStim h2 = 99
       | _ => False
       end.
Proof. eexists. split; [vm_compute; reflexivity|]. by vm_compute. Qed.

(** ** C10: snapshots and the live cursor *)

Lemma bind_Ok {A B} (r : result A) (k : A -> result B) b :
  r ≫= k = Ok b -> exists a, r = Ok a /\ k a = Ok b.
Proof. destruct r as [a| |]; cbn; [by exists a | done | done]. Qed.

(** Only the assignment to [finished] reaches the snapshots. *)
Lemma assign_snapshots p v h h' :
  assign p v h = Ok h' -> p <> "finished" -> _snapshots h' = _snapshots h.
Proof.
  unfold assign. intros H Hp.
  repeat match type of H with
         | (if decide ?P then _ else _) = _ =>
             destruct (decide P) as [->|_]
         | (if bool_decide ?P then _ else _) = _ => destruct (bool_decide P)
         | _ ≫= _ = Ok _ => apply bind_Ok in H as (? & _ & H)
         | Ok _ = Ok _ => injection H as <-
         end; done.
Qed.

Lemma assign_all_snapshots s l : forall h h',
  assign_all s l h = Ok h' -> "finished" ∉ l ->
  _snapshots h' = _snapshots h.
Proof.
  induction l as [|k l IH]; intros h h' H Hl; cbn in H.
  - by injection H as <-.
  - apply bind_Ok in H as (h1 & E1 & H).
    apply not_elem_of_cons in Hl as [Hk Hl].
    rewrite (IH _ _ H Hl). eapply assign_snapshots; eauto.
Qed.

Lemma fromSnapshot_snapshots i si l h h' :
  _snapshots h !! i = Some si ->
  iterate (get si "trialAttributes") = Ok l -> "finished" ∉ l ->
  fromSnapshot (Some i) h = Ok h' ->
  _snapshots h' = _snapshots h.
Proof.
  intros Hsi Hit Hl. unfold fromSnapshot. rewrite Hsi, Hit.
  destruct (get si "handler"); try discriminate.
  intros H.
  repeat match type of H with
         | assign ?p _ _ ≫= _ = Ok _ =>
             let E := fresh "E" in
             apply bind_Ok in H as (? & E & H);
             apply assign_snapshots in E; [|discriminate]
         end.
  cbn [mbind result_bind] in H.
  apply assign_all_snapshots in H; [|done]. cbn in H. congruence.
Qed.

Lemma iterator_next_snapshots h h' r :
  iterator_next h = Ok (h', r) -> _snapshots h' = _snapshots h.
Proof.
  unfold iterator_next. cbn.
  destruct (thisTrialN h + 1 =? nStim h); cbn;
    destruct (_ >=? _); try (by intros [= <- _]);
    destruct (lookupZ _ _); try discriminate; by intros [= <- _].
Qed.

Lemma getSnapshot_snapshots h :
  exists s, _snapshots (getSnapshot h).1 = _snapshots h ++ [s]
            /\ (getSnapshot h).2 = length (_snapshots h).
Proof.
  unfold getSnapshot.
  destruct (foldl _ _ _) as [[s l] w]. by exists s.
Qed.

(** C10 (as amended). For a snapshot captured earlier, held at position
    j: a step of the iteration and the capture of a further snapshot
    (which is another object) leave all its fields as they are, and so
    does [fromSnapshot] of any snapshot whose trial attributes do not
    include [finished]; assigning the cursor's [finished] overwrites its
    field [finished], and only that field; an assignment to a field of
    another snapshot leaves it as it is, and an assignment to a field of
    any snapshot leaves the cursor as it is (counters, current trial,
    finished flag, attributes). *)
Theorem snapshots_and_the_cursor h j s :
  _snapshots h !! j = Some s ->
  (forall h' r, iterator_next h = Ok (h', r) -> _snapshots h' !! j = Some s)
  /\ (_snapshots (getSnapshot h).1 !! j = Some s /\ (getSnapshot h).2 <> j)
  /\ (forall i si l h',
        _snapshots h !! i = Some si ->
        iterate (get si "trialAttributes") = Ok l -> "finished" ∉ l ->
        fromSnapshot (Some i) h = Ok h' -> _snapshots h' !! j = Some s)
  /\ (forall v,
        _snapshots (set_finished v h) !! j = Some (<["finished" := v]> s)
        /\ forall p, p <> "finished" ->
             snapshot_field (set_finished v h) j p = snapshot_field h j p)
  /\ (forall i p v, i <> j ->
        _snapshots (snapshot_assign i p v h) !! j = Some s)
  /\ (forall i p v,
        same_cursor h (snapshot_assign i p v h)
        /\ _finished (snapshot_assign i p v h) = _finished h
        /\ attributes (snapshot_assign i p v h) = attributes h).
Proof.
  intros Hs. split; [|split; [|split; [|split; [|split]]]].
  - intros h' r H. by rewrite (iterator_next_snapshots _ _ _ H).
  - destruct (getSnapshot_snapshots h) as (s' & -> & ->).
    apply lookup_lt_Some in Hs as Hlt. split; [|lia].
    by rewrite lookup_app_l.
  - intros i si l h' Hsi Hit Hl H.
    by rewrite (fromSnapshot_snapshots _ _ _ _ _ Hsi Hit Hl H).
  - intros v. unfold set_finished. cbn [_snapshots set_snapshots set__finished].
    split.
    + by rewrite list_lookup_fmap, Hs.
    + intros p Hp. unfold snapshot_field.
      cbn [_snapshots set_snapshots set__finished].
      rewrite list_lookup_fmap, Hs. cbn. unfold get.
      by rewrite lookup_insert_ne.
  - intros i p v Hi. unfold snapshot_assign. cbn [_snapshots set_snapshots].
    by rewrite list_lookup_alter_ne.
  - intros i p v. by repeat split.
Qed.

Lemma snapshots_and_the_cursor_witness :
  exists h0,
    after 1 (options SEQUENTIAL 2 (ListArray words)) = Some h0
    /\ let h := (getSnapshot h0).1 in
       snapshot_field (set_finished (VBool true) h) 0 "nRemaining"
       = snapshot_field h 0 "nRemaining"
       /\ snapshot_field h 0 "nRemaining" = VNum 5.
Proof.
  eexists. split; [vm_compute; reflexivity|].
  match goal with
  | |- let h := ?h1 in _ =>
      intros h;
      destruct (lookup_lt_is_Some_2 (_snapshots h) 0) as [s Hs];
        [vm_compute; lia|];
      destruct (snapshots_and_the_cursor h 0%nat s Hs)
        as (_ & _ & _ & F & _)
  end.
  split.
  - apply (F (VBool true)). discriminate.
  - by vm_compute.
Defined.

(** C10 as stated fails: a snapshot captured while the finished flag was
    false shows [finished] = true once the cursor's flag is set. *)
Lemma finished_reaches_captured_snapshots :
  exists h0,
    after 1 (options SEQUENTIAL 2 (ListArray words)) = Some h0
    /\ snapshot_field (getSnapshot h0).1 0 "finished" = VBool false
    /\ snapshot_field (set_finished (VBool true) (getSnapshot h0).1) 0
         "finished" = VBool true.
Proof. eexists. split; [vm_compute; reflexivity|]. by vm_compute. Qed.

(** ** C1: the counters, whatever is called *)

Lemma iterator_next_counts h h' r :
  iterator_next h = Ok (h', r) ->
  thisN h' = thisN h + 1 /\ nRemaining h' = nRemaining h - 1
  /\ nTotal h' = nTotal h /\ trialList h' = trialList h
  /\ _snapshots h' = _snapshots h.
Proof.
  unfold iterator_next. cbn.
  destruct (thisTrialN h + 1 =? nStim h); cbn;
    destruct (_ >=? _); try (by intros [= <- _]);
    destruct (lookupZ _ _); try discriminate; by intros [= <- _].
Qed.

Lemma trial_at_plain l i : Forall plain_trial l -> plain_trial (trial_at l i).
Proof.
  intros Hl. destruct i as [z|]; [|done]. unfold trial_at, lookupZ.
  destruct (z <? 0); [done|].
  destruct (l !! Z.to_nat z) as [tr|] eqn:E; [|done].
  cbn. eapply Forall_lookup_1; eauto.
Qed.

Lemma snapshot_ok_upto total s s' :
  snapshot_ok total s -> upto_finished s s' -> snapshot_ok total s'.
Proof.
  intros [Hsum Hattrs] Hup. split.
  - intros a b. rewrite !Hup by discriminate. apply Hsum.
  - intros l. rewrite Hup by discriminate. apply Hattrs.
Qed.

Lemma Forall_snapshot_ok_upto total ss ss' :
  Forall (snapshot_ok total) ss -> Forall2 upto_finished ss ss' ->
  Forall (snapshot_ok total) ss'.
Proof.
  intros Hss H2. induction H2 as [|s s' ss ss' Hup _ IH]; [done|].
  apply Forall_cons in Hss as [Hs Hss].
  constructor; [by eapply snapshot_ok_upto | by apply IH].
Qed.

Lemma upto_finished_refl ss : Forall2 upto_finished ss ss.
Proof. induction ss; constructor; done. Qed.

Lemma upto_finished_set v ss :
  Forall2 upto_finished ss ((fun s => <["finished" := v]> s) <$> ss).
Proof.
  induction ss as [|s ss IH]; constructor; [|done].
  intros p Hp. unfold get. by rewrite lookup_insert_ne.
Qed.

Lemma upto_finished_trans ss1 ss2 ss3 :
  Forall2 upto_finished ss1 ss2 -> Forall2 upto_finished ss2 ss3 ->
  Forall2 upto_finished ss1 ss3.
Proof.
  intros H12. revert ss3.
  induction H12 as [|s1 s2 ss1 ss2 H _ IH]; intros ss3 H23.
  - by inversion H23.
  - inversion H23 as [|? s3 ? ss3' H' H23']; subst.
    constructor; [|by apply IH].
    intros p Hp. by rewrite H', H.
Qed.

(** An assignment reaches the snapshots through [finished] at most. *)
Lemma assign_store p v h h' :
  assign p v h = Ok h' ->
  Forall2 upto_finished (_snapshots h) (_snapshots h').
Proof.
  intros H. destruct (decide (p = "finished")) as [->|Hp].
  - injection H as <-. apply upto_finished_set.
  - rewrite (assign_snapshots _ _ _ _ H Hp). apply upto_finished_refl.
Qed.

Lemma assign_all_store s l : forall h h',
  assign_all s l h = Ok h' ->
  Forall2 upto_finished (_snapshots h) (_snapshots h').
Proof.
  induction l as [|k l IH]; intros h h' H; cbn in H.
  - injection H as <-. apply upto_finished_refl.
  - apply bind_Ok in H as (h1 & E1 & H).
    eapply upto_finished_trans; [by eapply assign_store | by apply IH].
Qed.

(** What a successful [fromSnapshot] has read and done. *)
Lemma fromSnapshot_inv i h h' :
  fromSnapshot (Some i) h = Ok h' ->
  exists s l a b c d e f x r,
    _snapshots h !! i = Some s
    /\ get s "nStim" = VNum a /\ get s "nTotal" = VNum b
    /\ get s "nRemaining" = VNum c /\ get s "thisRepN" = VNum d
    /\ get s "thisTrialN" = VNum e /\ get s "thisN" = VNum f
    /\ get s "thisIndex" = number x /\ get s "ran" = VNum r
    /\ iterate (get s "trialAttributes") = Ok l
    /\ assign_all s l
         (set_thisTrial (trial_at (trialList h) x)
            (set__finished (get s "_finished")
               (set_ran r (set_thisIndex x (set_thisN f (set_thisTrialN e
                  (set_thisRepN d (set_nRemaining c (set_nTotal b
                     (set_nStim a h)))))))))) = Ok h'.
Proof.
  unfold fromSnapshot. intros H.
  destruct (_snapshots h !! i) as [s|]; [|discriminate].
  destruct (get s "handler"); try discriminate.
  destruct (get s "nStim") as [| | |a| | | |] eqn:Ea; try discriminate.
  destruct (get s "nTotal") as [| | |b| | | |] eqn:Eb; try discriminate.
  destruct (get s "nRemaining") as [| | |c| | | |] eqn:Ec; try discriminate.
  destruct (get s "thisRepN") as [| | |d| | | |] eqn:Ed; try discriminate.
  destruct (get s "thisTrialN") as [| | |e| | | |] eqn:Ee; try discriminate.
  destruct (get s "thisN") as [| | |f| | | |] eqn:Ef; try discriminate.
  destruct (get s "thisIndex") as [| | |x| | | |] eqn:Ex; try discriminate.
  all: destruct (get s "ran") as [| | |r| | | |] eqn:Er; try discriminate.
  all: destruct (iterate (get s "trialAttributes")) as [l| |] eqn:El;
    try discriminate.
  - exists s, l, a, b, c, d, e, f, None, r. by repeat split.
  - exists s, l, a, b, c, d, e, f, (Some x), r. by repeat split.
Qed.

Lemma getSnapshot_steady total h :
  steady total h -> steady total (getSnapshot h).1.
Proof.
  intros [Hsum Hlist Hsnaps]. unfold getSnapshot.
  pose proof (trial_at_plain _ (thisIndex h) Hlist) as Hplain.
  fold (getCurrentTrial h) in Hplain.
  set (fields := match getCurrentTrial h with TObj fs => fs | _ => [] end).
  assert (Forall (fun k => k ∉ protected) fields.*1) as Hkeys.
  { unfold fields. by destruct (getCurrentTrial h). }
  destruct (capture_attributes_fold fields fields.*1 (snapshot_literal h) [] [])
    as (s & l & w & E & T & F & M).
  rewrite E. cbn [fst]. constructor; cbn; [done | done |].
  apply Forall_app. split; [done|]. constructor; [|done].
  destruct (snapshot_literal_fields h)
    as (_ & _ & _ & L3 & _ & _ & L6 & _).
  split.
  - intros a b. unfold get.
    rewrite !F, L3, L6;
      [| by apply protected_not_key; [|in_list] | discriminate
       | by apply protected_not_key; [|in_list] | discriminate].
    cbn. intros [= <-] [= <-]. done.
  - intros l'. destruct (fields.*1) as [|k ks] eqn:Ek.
    + cbn in E. injection E as <- <- <-. by vm_compute.
    + unfold get. rewrite T by done. cbn. intros [= <-].
      apply Forall_forall. intros x Hx.
      destruct (M x Hx) as [Hnil|Hin]; [by apply elem_of_nil in Hnil|].
      rewrite Forall_forall in Hkeys. by apply Hkeys.
Qed.

Lemma fromSnapshot_steady total x h h' :
  steady total h -> fromSnapshot x h = Ok h' -> steady total h'.
Proof.
  intros [Hsum Hlist Hsnaps] H. destruct x as [i|].
  2:{ injection H as <-. by constructor. }
  apply fromSnapshot_inv in H
    as (s & l & a & b & c & d & e & f & x & r
        & Hs & _ & _ & Hc & _ & _ & Hf & _ & _ & Hl & H).
  pose proof (Forall_lookup_1 _ _ _ _ Hsnaps Hs) as [Hok Hattrs].
  match type of H with
  | assign_all s l ?h1 = _ =>
      destruct (assign_all_unprotected s l h1 (Hattrs l Hl))
        as (h2 & E2 & C2 & _ & L2 & _)
  end.
  rewrite H in E2. injection E2 as <-.
  apply assign_all_store in H. cbn in H, C2, L2.
  injection C2 as _ _ Hc' _ _ Hf' _ _.
  constructor.
  - rewrite Hf', Hc'. by apply Hok.
  - by rewrite L2.
  - by eapply Forall_snapshot_ok_upto.
Qed.

Lemma perform_steady total op h h' :
  steady total h -> perform op h = Ok h' -> steady total h'.
Proof.
  intros Hst H. destruct op as [| |x|v|i]; cbn in H.
  - apply bind_Ok in H as ([h1 r] & E & [= <-]).
    apply iterator_next_counts in E as (N & R & _ & L & S).
    destruct Hst. constructor; cbn; [lia | by rewrite L | by rewrite S].
  - injection H as <-. by apply getSnapshot_steady.
  - by eapply fromSnapshot_steady.
  - injection H as <-. destruct Hst. constructor; cbn; [done | done |].
    eapply Forall_snapshot_ok_upto; [done | apply upto_finished_set].
  - injection H as <-. by destruct Hst.
Qed.

Lemma perform_all_steady total ops : forall h h',
  steady total h -> perform_all ops h = Ok h' -> steady total h'.
Proof.
  induction ops as [|op ops IH]; intros h h' Hst H; cbn in H.
  - by injection H as <-.
  - apply bind_Ok in H as (h1 & E1 & H).
    eapply IH; [|done]. by eapply perform_steady.
Qed.

(** C1 (as amended). For a handler that the constructor returned, with
    total = nReps * nStim: [nTotal] is that product, and after any number
    [k] of calls of the iterator's [next] the sum thisN + nRemaining is
    total - 1 (not total: [thisN] starts at -1), [nRemaining] is
    total - k, so each call lowers it by exactly one and it is 0 after
    exactly total calls; call number i+1 reports [done] exactly when
    total <= i, so the calls 1..total yield a trial and call total+1 is
    the first exhausted one. The sum stays total - 1 under any run of
    calls of [next], [getSnapshot], [fromSnapshot], the setter [finished]
    and [setTrialIndex], provided no trial has a field named like a
    member of the handler or a reserved field of a snapshot. *)
Theorem counters_along_iteration o h :
  new o = Ok h ->
  nTotal h = nReps h * nStim h
  /\ (forall k : nat, exists hk rs,
        advance k h = Ok (hk, rs)
        /\ thisN hk + nRemaining hk = nReps h * nStim h - 1
        /\ nRemaining hk = nReps h * nStim h - Z.of_nat k
        /\ length rs = k
        /\ (forall (i : nat) r, rs !! i = Some r ->
              (r = Done <-> nReps h * nStim h <= Z.of_nat i)))
  /\ (Forall plain_trial (trialList h) ->
      forall ops h', perform_all ops h = Ok h' ->
        thisN h' + nRemaining h' = nReps h * nStim h - 1).
Proof.
  intros Hnew. apply new_fresh in Hnew.
  pose proof (fresh_cursor_ok _ _ Hnew) as Hok.
  destruct Hnew. split; [done|]. split.
  - intros k.
    destruct (advance_ok k h Hok) as (hk & rs & E & Hokk & S & N & R & L & D).
    exists hk, rs. split; [done|].
    split; [lia|]. split; [lia|]. split; [done|].
    intros i r Hi. rewrite (D i r Hi). lia.
  - intros Hplain ops h' Hrun.
    assert (steady (nReps h * nStim h) h) as Hst.
    { constructor; [lia | done |]. rewrite fresh_snapshots0. constructor. }
    by destruct (perform_all_steady _ ops h h' Hst Hrun).
Qed.

Lemma counters_along_iteration_witness :
  exists h, new (options SEQUENTIAL 2 (ListArray words)) = Ok h
    /\ nTotal h = 6
    /\ (exists hk rs, advance 7 h = Ok (hk, rs)
          /\ nRemaining hk = -1 /\ rs !! 6%nat = Some Done)
    /\ match perform_all [DoNext; DoGetSnapshot; DoNext; DoSetFinished VNull;
                          DoFromSnapshot (Some 0%nat); DoNext] h with
       | Ok h' => thisN h' + nRemaining h' = 5
       | _ => False
       end.
Proof.
  eexists. split; [vm_compute; reflexivity|].
  match goal with
  | |- nTotal ?h = _ /\ _ =>
      destruct (counters_along_iteration
                  (options SEQUENTIAL 2 (ListArray words)) h)
        as (T & A & P); [vm_compute; reflexivity|]
  end.
  split; [exact T|]. split.
  - destruct (A 7%nat) as (hk & rs & E & _ & R & L & D).
    exists hk, rs. split; [exact E|]. split; [exact R|].
    destruct (rs !! 6%nat) as [r|] eqn:Hr.
    + f_equal. apply (D 6%nat r Hr). vm_compute. discriminate.
    + apply lookup_ge_None in Hr. lia.
  - match goal with
    | |- match ?run with _ => _ end =>
        destruct run as [h'| |] eqn:E;
          [ apply (P ltac:(repeat constructor;
                           apply (bool_decide_unpack _); by vm_compute)
                     _ h' E)
          | vm_compute in E; discriminate
          | vm_compute in E; discriminate ]
    end.
Defined.

(** C1 as stated fails: right after construction with three trials and
    two repetitions, thisN + nRemaining is 5, not 2 * 3. *)
Lemma completed_plus_remaining_is_not_total :
  exists h, new (options SEQUENTIAL 2 (ListArray words)) = Ok h
    /\ nReps h * nStim h = 6 /\ thisN h + nRemaining h = 5.
Proof. eexists. split; [vm_compute; reflexivity|]. by vm_compute. Qed.

(** * Further properties *)

(** ** The constructor: what it accepts, what it builds *)

Lemma prepareTrialList_accepted o :
  list_accepted o ->
  _prepareTrialList o
    (match opt_trialList o with
     | ListUndefined => ListArray [TUndefined]
     | arg => arg
     end) (start o)
  = Ok (set_trialList (prepared_list o) (start o))
  /\ prepared_list o <> [].
Proof.
  unfold list_accepted, prepared_list, _prepareTrialList, importConditions, start.
  destruct (opt_trialList o) as [|l|r|ty]; cbn.
  - done.
  - intros _. by destruct l.
  - intros (rows & -> & Hne). by destruct rows.
  - done.
Qed.

Lemma prepareTrialList_inv o h :
  _prepareTrialList o
    (match opt_trialList o with
     | ListUndefined => ListArray [TUndefined]
     | arg => arg
     end) (start o) = Ok h ->
  list_accepted o.
Proof.
  unfold list_accepted, _prepareTrialList, importConditions.
  destruct (opt_trialList o) as [|l|r|ty]; cbn; try done.
  destruct (selectedRows o r) as [[|x rows]|[]|] eqn:E; cbn; try done.
  intros _. by exists (x :: rows).
Qed.

Lemma new_inv o h : new o = Ok h -> list_accepted o /\ method_accepted o.
Proof.
  rewrite new_stages. intros H.
  destruct (_prepareTrialList o _ (start o)) as [h1| |] eqn:E1;
    try discriminate.
  pose proof (prepareTrialList_inv o h1 E1) as Hl. split; [done|].
  destruct (prepareTrialList_accepted o Hl) as [E _].
  rewrite E in E1. injection E1 as <-.
  cbn [mbind result_bind] in H. unfold method_accepted.
  unfold _prepareSequence in H.
  cbn [method reset set_trialList start nReps trialList] in H.
  rewrite length_keys_of in H.
  destruct (default RANDOM (opt_method o)); try done.
  - destruct (Z.leb_spec 0 (opt_nReps o));
      destruct (Z.ltb_spec (opt_nReps o) (2 ^ 32)); try discriminate.
    lia.
  - by destruct (Z.ltb_spec (opt_nReps o) (2 ^ 32)).
  - by destruct (Z.ltb_spec (opt_nReps o * Z.of_nat (length (prepared_list o)))
                  (2 ^ 32)).
Qed.

Lemma new_accepted o :
  list_accepted o -> method_accepted o -> exists h, new o = Ok h.
Proof.
  rewrite new_stages.
  intros Hl Hm. destruct (prepareTrialList_accepted o Hl) as [-> Hne].
  cbn [mbind result_bind]. unfold method_accepted in Hm.
  unfold _prepareSequence.
  cbn [method reset set_trialList start nReps trialList].
  rewrite length_keys_of.
  destruct (default RANDOM (opt_method o)); try done.
  - destruct (Z.leb_spec 0 (opt_nReps o)); [|lia].
    destruct (Z.ltb_spec (opt_nReps o) (2 ^ 32)); [|lia].
    eexists. reflexivity.
  - destruct (Z.ltb_spec (opt_nReps o) (2 ^ 32)); [|lia].
    destruct (random_rows _ _ _ _). eexists. reflexivity.
  - destruct (Z.ltb_spec (opt_nReps o * Z.of_nat (length (prepared_list o)))
                (2 ^ 32)); [|lia].
    destruct (Z.ltb_spec (opt_nReps o) (2 ^ 32)).
    + cbn [andb]. destruct (shuffle _ _). eexists. reflexivity.
    + assert (1 <= Z.of_nat (length (prepared_list o)))
        by (destruct (prepared_list o); [done | cbn; lia]).
      nia.
Qed.

Lemma new_rejected o :
  list_accepted o -> default RANDOM (opt_method o) <> OTHER ->
  ~ method_accepted o -> new o = Throw RangeError.
Proof.
  rewrite new_stages.
  intros Hl Hk Hm. destruct (prepareTrialList_accepted o Hl) as [-> Hne].
  cbn [mbind result_bind]. unfold method_accepted in Hm.
  unfold _prepareSequence.
  cbn [method reset set_trialList start nReps trialList].
  rewrite length_keys_of.
  destruct (default RANDOM (opt_method o)); try done.
  - destruct (Z.leb_spec 0 (opt_nReps o));
      destruct (Z.ltb_spec (opt_nReps o) (2 ^ 32)); try done. lia.
  - by destruct (Z.ltb_spec (opt_nReps o) (2 ^ 32)).
  - by destruct (Z.ltb_spec (opt_nReps o * Z.of_nat (length (prepared_list o)))
                  (2 ^ 32)).
Qed.

(** The errors of the constructor. It returns a handler exactly when
    the trial list is absent, an array, or a resource with at least one
    selected row, and the method is one of the three known ones, with an
    ordering that fits an array: 0 <= nReps < 2^32 for the sequential
    method ([Array(nReps)]), nReps < 2^32 for the random one (one [push]
    per repetition) and nReps * nStim < 2^32 for the fully random one
    (the flat sequence). A trial list of another type is reported before
    the method is looked at; an unknown method is reported as 'unknown
    method'; an ordering that does not fit is a RangeError. *)
Theorem constructor_accepts o :
  ((exists h, new o = Ok h) <-> list_accepted o /\ method_accepted o)
  /\ (forall ty, opt_trialList o = ListOther ty ->
        new o = Throw (Thrown "TrialHandler._prepareTrialList"
                         "when preparing the trial list"
                         ("unable to prepare trial list: unknown type: " +:+ ty)))
  /\ (list_accepted o -> default RANDOM (opt_method o) = OTHER ->
        new o = Throw (Thrown "TrialHandler._prepareSequence"
                         "when preparing a sequence of trials" "unknown method"))
  /\ (list_accepted o -> default RANDOM (opt_method o) <> OTHER ->
        ~ method_accepted o -> new o = Throw RangeError)
  /\ new (options FULL_RANDOM (2 ^ 32) (ListArray words)) = Throw RangeError
  /\ new (options RANDOM (2 ^ 32) (ListArray words)) = Throw RangeError.
Proof.
  split; [|split; [|split; [|split; [|split]]]].
  - split; [intros [h H]; by eapply new_inv | intros []; by apply new_accepted].
  - rewrite new_stages. intros ty ->. reflexivity.
  - rewrite new_stages.
    intros Hl Hm. destruct (prepareTrialList_accepted o Hl) as [-> _].
    cbn [mbind result_bind]. unfold _prepareSequence.
    cbn [method reset set_trialList start]. by rewrite Hm.
  - apply new_rejected.
  - apply new_rejected; [exact I | discriminate | by vm_compute].
  - apply new_rejected; [exact I | discriminate | by vm_compute].
Qed.

Lemma new_ordering o h :
  new o = Ok h ->
  trialList h = prepared_list o /\ nReps h = opt_nReps o
  /\ let n := Z.to_nat (opt_nReps o) in
     let ids := keys_of (prepared_list o) in
     let g0 := {| draws := opt_seed o; consumed := 0 |} in
     match default RANDOM (opt_method o) with
     | SEQUENTIAL =>
         _trialSequence h = replicate n ids /\ _randomNumberGenerator h = g0
     | RANDOM =>
         (_trialSequence h, _randomNumberGenerator h) = random_rows n ids g0 []
     | FULL_RANDOM =>
         _trialSequence h
         = reshape_rows n 0 (shuffle (flat_rows n ids []) g0).1
             (Z.of_nat (length (prepared_list o))) []
         /\ _randomNumberGenerator h = (shuffle (flat_rows n ids []) g0).2
     | OTHER => False
     end.
Proof.
  rewrite new_stages. intros H.
  destruct (_prepareTrialList o _ (start o)) as [h1| |] eqn:E1;
    try discriminate.
  apply prepareTrialList_nonempty in E1 as (Hne & ->); [|done].
  cbn [mbind result_bind] in H. revert H.
  unfold _prepareSequence.
  cbn [method reset set_trialList start nReps trialList nStim
       _randomNumberGenerator].
  destruct (default RANDOM (opt_method o)).
  - destruct (_ && _); [|discriminate]. by intros [= <-].
  - destruct (_ <? _); [|discriminate].
    destruct (random_rows _ _ _ _) as [seq g]. by intros [= <-].
  - destruct (_ && _); [|discriminate].
    destruct (shuffle _ _) as [flat g]. by intros [= <-].
  - discriminate.
Qed.

Lemma swap_length_any (a : list Z) (i j : nat) :
  length (swap a i j) = length a.
Proof.
  unfold swap. destruct (a !! i), (a !! j); try done.
  by rewrite !length_insert.
Qed.

Lemma shuffle_from_count i : forall a g,
  length (shuffle_from i a g).1 = length a
  /\ draws (shuffle_from i a g).2 = draws g
  /\ consumed (shuffle_from i a g).2 = (consumed g + i)%nat.
Proof.
  induction i as [|i IH]; intros a g.
  - cbn. repeat split; lia.
  - cbn [shuffle_from].
    match goal with
    | |- context [shuffle_from i ?a' ?g'] =>
        destruct (IH a' g') as (L & D & C)
    end.
    rewrite L, D, C, swap_length_any. cbn. repeat split; lia.
Qed.

Lemma slice_all {A} (l : list A) : slice l 0 (Z.of_nat (length l)) = l.
Proof.
  unfold slice, slice_index. cbn.
  destruct (Z.ltb_spec (Z.of_nat (length l)) 0); [lia|].
  rewrite Nat2Z.id, Nat.min_id, Nat.sub_0_r. cbn. apply firstn_all.
Qed.

Lemma random_rows_spec n : forall ids g acc,
  exists rows,
    (random_rows n ids g acc).1 = acc ++ rows
    /\ length rows = n
    /\ Forall (fun row => length row = length ids) rows
    /\ (unit_interval (draws g) -> Forall (fun row => row ≡ₚ ids) rows)
    /\ draws (random_rows n ids g acc).2 = draws g
    /\ consumed (random_rows n ids g acc).2
       = (consumed g + n * (length ids - 1))%nat.
Proof.
  induction n as [|n IH]; intros ids g acc.
  - exists []. cbn. rewrite app_nil_r. repeat split; try done; lia.
  - cbn [random_rows]. rewrite slice_all.
    pose proof (shuffle_from_count (length ids - 1) ids g) as (L & D & C).
    fold (shuffle ids g) in L, D, C.
    destruct (shuffle ids g) as [row g'] eqn:E. cbn [fst snd] in L, D, C.
    destruct (IH ids g' (acc ++ [row])) as (rows & E' & L' & F' & P' & D' & C').
    exists (row :: rows). rewrite E', <- app_assoc. cbn [app].
    split; [done|]. split; [cbn; lia|]. split; [by constructor|].
    split.
    + intros Hu. constructor.
      * destruct (shuffle_spec ids g Hu) as (P & _). by rewrite E in P.
      * apply P'. by rewrite D.
    + split; [congruence|]. rewrite C', C. lia.
Qed.

Lemma Forall_join_inv {A} (P : A -> Prop) (ls : list (list A)) :
  Forall P (mjoin ls) -> Forall (Forall P) ls.
Proof.
  induction ls as [|l ls IH]; [constructor|].
  change (mjoin (l :: ls)) with (l ++ mjoin ls).
  rewrite Forall_app. intros [Hl Hls]. constructor; [done | by apply IH].
Qed.

Lemma join_Permutation (rows : list (list Z)) ids :
  Forall (fun row => row ≡ₚ ids) rows ->
  mjoin rows ≡ₚ mjoin (replicate (length rows) ids).
Proof.
  induction 1 as [|row rows Hrow _ IH]; [done|].
  cbn [length replicate].
  change (mjoin (row :: rows)) with (row ++ mjoin rows).
  change (mjoin (ids :: replicate (length rows) ids))
    with (ids ++ mjoin (replicate (length rows) ids)).
  by rewrite Hrow, IH.
Qed.

Lemma keys_of_range {A} (l : list A) :
  Forall (fun c => 0 <= c < Z.of_nat (length l)) (keys_of l).
Proof.
  apply Forall_forall. intros c Hc. unfold keys_of in Hc.
  apply list_elem_of_fmap in Hc as (k & -> & Hk).
  apply elem_of_seq in Hk. lia.
Qed.

(** What the constructor leaves as the ordering, whatever the method. *)
Lemma ordering_facts o h :
  new o = Ok h ->
  let n := Z.to_nat (nReps h) in
  let w := length (trialList h) in
  let ids := keys_of (trialList h) in
  length (_trialSequence h) = n
  /\ Forall (fun row => length row = w) (_trialSequence h)
  /\ draws (_randomNumberGenerator h) = opt_seed o
  /\ consumed (_randomNumberGenerator h)
     = match method h with
       | SEQUENTIAL => 0%nat
       | RANDOM => (n * (w - 1))%nat
       | _ => (n * w - 1)%nat
       end
  /\ (unit_interval (opt_seed o) ->
      mjoin (_trialSequence h) ≡ₚ mjoin (replicate n ids)
      /\ (method h = RANDOM ->
          Forall (fun row => row ≡ₚ ids) (_trialSequence h))).
Proof.
  intros Hnew. pose proof (new_fresh _ _ Hnew) as [].
  destruct (new_ordering o h Hnew) as (Hl & Hn & Hseq).
  rewrite <- Hl in Hseq. rewrite <- Hn in Hseq. cbn zeta in Hseq.
  rewrite fresh_method0. cbn zeta.
  set (n := Z.to_nat (nReps h)) in *.
  set (w := length (trialList h)) in *.
  set (ids := keys_of (trialList h)) in *.
  assert (length ids = w) as Hids by apply length_keys_of.
  destruct (default RANDOM (opt_method o)); [| | |done].
  - destruct Hseq as [-> ->]. cbn.
    split; [by rewrite length_replicate|].
    split; [by apply Forall_replicate|]. split; [done|]. split; [done|].
    intros _. split; [done | discriminate].
  - destruct (random_rows_spec n ids {| draws := opt_seed o; consumed := 0 |} [])
      as (rows & E & L & F & P & D & C).
    rewrite <- Hseq in E, D, C. cbn in E, D, C. subst rows.
    split; [done|]. split; [by rewrite <- Hids|]. split; [done|].
    split; [by rewrite C, Hids|].
    intros Hu. specialize (P Hu). split; [|done].
    rewrite <- L. by apply join_Permutation.
  - destruct Hseq as [Hseq Hg].
    rewrite flat_rows_join in Hseq, Hg. cbn [app] in Hseq, Hg.
    set (flat := mjoin (replicate n ids)) in *.
    set (g0 := {| draws := opt_seed o; consumed := 0 |}) in *.
    assert (length flat = (n * w)%nat) as Hflat.
    { unfold flat. by rewrite length_join_replicate, Hids. }
    pose proof (shuffle_from_count (length flat - 1) flat g0) as (L & D & C).
    fold (shuffle flat g0) in L, D, C.
    assert (reshape_rows n 0 (shuffle flat g0).1 (Z.of_nat w) []
            = reshape (replicate n w) (shuffle flat g0).1) as Hrows.
    { apply (reshape_rows_reshape n 0 w (shuffle flat g0).1 []).
      rewrite L, Hflat. lia. }
    rewrite Hrows in Hseq. rewrite Hseq, Hg.
    split; [by rewrite length_reshape, length_replicate|].
    split; [apply Forall_length_reshape; rewrite L, Hflat; lia|].
    split; [done|]. split; [rewrite C, Hflat; cbn; lia|].
    intros Hu. split; [|done].
    rewrite join_reshape by (rewrite sum_list_replicate, L, Hflat; lia).
    by destruct (shuffle_spec flat g0 Hu) as (P & _).
Qed.

(** The ordering is a matrix of trial indices: nReps rows (none when
    nReps is negative) of nStim cells, each the index of a trial of the
    list, whatever the method; and the list is never empty, so nStim >= 1
    and nTotal = nReps * nStim. *)
Theorem ordering_is_a_matrix_of_indices o h :
  new o = Ok h ->
  unit_interval (opt_seed o) ->
  1 <= nStim h
  /\ nStim h = Z.of_nat (length (trialList h))
  /\ nTotal h = nReps h * nStim h
  /\ length (_trialSequence h) = Z.to_nat (nReps h)
  /\ Forall (fun row => length row = Z.to_nat (nStim h)
                        /\ Forall (fun c => 0 <= c < nStim h) row)
       (_trialSequence h).
Proof.
  intros Hnew Hu. pose proof (new_fresh _ _ Hnew) as Hf.
  pose proof (fresh_cursor_ok _ _ Hf) as []. destruct Hf.
  destruct (ordering_facts o h Hnew) as (L & F & _ & _ & P).
  destruct (P Hu) as [P' _].
  split; [done|]. split; [done|]. split; [done|]. split; [done|].
  assert (Forall (Forall (fun c => 0 <= c < nStim h)) (_trialSequence h))
    as Hcells.
  { apply Forall_join_inv. rewrite P'. apply Forall_join, Forall_replicate.
    rewrite fresh_nStim0. apply keys_of_range. }
  apply Forall_forall. intros row Hrow.
  rewrite Forall_forall in F, Hcells. split; [|by apply Hcells].
  rewrite (F row Hrow), fresh_nStim0. lia.
Qed.

Lemma ordering_is_a_matrix_of_indices_witness :
  exists h,
    new (with_seed (fun _ => 1 # 3)%Q (options FULL_RANDOM 2 (ListArray words)))
    = Ok h
    /\ length (_trialSequence h) = 2%nat
    /\ Forall (fun row => length row = 3%nat
                          /\ Forall (fun c => 0 <= c < 3) row)
         (_trialSequence h).
Proof.
  eexists. split; [vm_compute; reflexivity|].
  match goal with
  | |- length (_trialSequence ?h) = _ /\ _ =>
      destruct (ordering_is_a_matrix_of_indices
                  (with_seed (fun _ => 1 # 3)%Q
                     (options FULL_RANDOM 2 (ListArray words))) h)
        as (_ & _ & _ & L & F);
        [vm_compute; reflexivity | apply unit_interval_third |]
  end.
  split; [exact L | exact F].
Defined.

(** With the random method, also when the method is left out: each row
    of the ordering is a rearrangement of [0, ..., nStim-1], each trial
    once per repetition, and each row costs nStim - 1 draws. *)
Theorem random_rows_are_permutations o h :
  new o = Ok h ->
  default RANDOM (opt_method o) = RANDOM ->
  unit_interval (opt_seed o) ->
  Forall (fun row => row ≡ₚ keys_of (trialList h)) (_trialSequence h)
  /\ length (_trialSequence h) = Z.to_nat (nReps h)
  /\ consumed (_randomNumberGenerator h)
     = (Z.to_nat (nReps h) * (length (trialList h) - 1))%nat.
Proof.
  intros Hnew Hm Hu. pose proof (new_fresh _ _ Hnew) as [].
  destruct (ordering_facts o h Hnew) as (L & _ & _ & C & P).
  rewrite fresh_method0, Hm in C, P.
  destruct (P Hu) as [_ P']. by split; [apply P'|].
Qed.

Lemma random_rows_are_permutations_witness :
  exists h,
    new {| selectedRows := fun _ => Ok words;
           opt_trialList := ListArray words; opt_nReps := 4;
           opt_method := None; opt_seed := (fun _ => 1 # 3)%Q;
           opt_name := VUndefined |} = Ok h
    /\ Forall (fun row => row ≡ₚ [0; 1; 2]) (_trialSequence h)
    /\ length (_trialSequence h) = 4%nat
    /\ consumed (_randomNumberGenerator h) = 8%nat.
Proof.
  eexists. split; [vm_compute; reflexivity|].
  match goal with
  | |- Forall _ (_trialSequence ?h) /\ _ =>
      apply (random_rows_are_permutations
               {| selectedRows := fun _ => Ok words;
                  opt_trialList := ListArray words; opt_nReps := 4;
                  opt_method := None; opt_seed := (fun _ => 1 # 3)%Q;
                  opt_name := VUndefined |} h);
        [vm_compute; reflexivity | reflexivity | apply unit_interval_third]
  end.
Defined.

(** ** The draws an ordering depends on *)

Lemma shuffle_from_ext i : forall a g g',
  consumed g' = consumed g ->
  (forall k, (consumed g <= k < consumed g + i)%nat -> draws g' k = draws g k) ->
  (shuffle_from i a g').1 = (shuffle_from i a g).1.
Proof.
  induction i as [|i IH]; intros a g g' Hc Hd; [done|].
  cbn [shuffle_from]. rewrite Hc, (Hd (consumed g)) by lia.
  apply IH; cbn; [done|]. intros k Hk. apply Hd. lia.
Qed.

Lemma random_rows_ext n : forall ids g g' acc,
  consumed g' = consumed g ->
  (forall k, (consumed g <= k < consumed g + n * (length ids - 1))%nat ->
             draws g' k = draws g k) ->
  (random_rows n ids g' acc).1 = (random_rows n ids g acc).1.
Proof.
  induction n as [|n IH]; intros ids g g' acc Hc Hd; [done|].
  cbn [random_rows]. rewrite slice_all.
  pose proof (shuffle_from_count (length ids - 1) ids g) as (_ & D & C).
  pose proof (shuffle_from_count (length ids - 1) ids g') as (_ & D' & C').
  pose proof (shuffle_from_ext (length ids - 1) ids g g' Hc) as E.
  fold (shuffle ids g) in D, C, E. fold (shuffle ids g') in D', C', E.
  destruct (shuffle ids g) as [row g1]. destruct (shuffle ids g') as [row' g1'].
  cbn [fst snd] in *. rewrite Nat.mul_succ_l in Hd.
  assert (row' = row) as -> by (apply E; intros k Hk; apply Hd; nia).
  apply IH; [lia|]. intros k Hk. rewrite D, D'. apply Hd. nia.
Qed.

(** The ordering depends on the random source only through the draws
    the constructor takes from it, which are the first ones: none for
    the sequential method, nReps * (nStim - 1) for the random one,
    nReps * nStim - 1 for the fully random one. A source that agrees on
    them gives the same ordering. *)
Theorem ordering_needs_only_its_draws o h f :
  new o = Ok h ->
  (forall k, (k < consumed (_randomNumberGenerator h))%nat ->
             f k = opt_seed o k) ->
  consumed (_randomNumberGenerator h)
  = match method h with
    | SEQUENTIAL => 0%nat
    | RANDOM => (Z.to_nat (nReps h) * (length (trialList h) - 1))%nat
    | _ => (Z.to_nat (nReps h) * length (trialList h) - 1)%nat
    end
  /\ exists h', new (with_seed f o) = Ok h'
       /\ _trialSequence h' = _trialSequence h
       /\ consumed (_randomNumberGenerator h')
          = consumed (_randomNumberGenerator h).
Proof.
  intros Hnew Hf.
  destruct (ordering_facts o h Hnew) as (_ & _ & _ & C & _).
  split; [exact C|].
  destruct (new_inv o h Hnew) as [Hl Hm].
  destruct (new_accepted (with_seed f o) Hl Hm) as [h' Hnew'].
  destruct (ordering_facts _ h' Hnew') as (_ & _ & _ & C' & _).
  pose proof (new_fresh _ _ Hnew) as []. pose proof (new_fresh _ _ Hnew') as [].
  destruct (new_ordering o h Hnew) as (Hlist & Hn & Hseq).
  destruct (new_ordering _ h' Hnew') as (Hlist' & Hn' & Hseq').
  change (prepared_list (with_seed f o)) with (prepared_list o) in *.
  change (opt_nReps (with_seed f o)) with (opt_nReps o) in *.
  change (opt_method (with_seed f o)) with (opt_method o) in *.
  change (opt_seed (with_seed f o)) with f in *.
  rewrite fresh_method0 in C. rewrite fresh_method1 in C'.
  rewrite Hlist, Hn in C. rewrite Hlist', Hn' in C'. 
  cbn zeta in Hseq, Hseq'.
  exists h'. split; [done|].
  destruct (default RANDOM (opt_method o)); [| | |done].
  - destruct Hseq as [-> _]. destruct Hseq' as [-> _]. split; [done | lia].
  - split; [|lia].
    change (_trialSequence h') with (_trialSequence h', _randomNumberGenerator h').1.
    change (_trialSequence h) with (_trialSequence h, _randomNumberGenerator h).1.
    rewrite Hseq, Hseq'. apply random_rows_ext; [done|].
    cbn [consumed draws]. intros k Hk. apply Hf.
    rewrite C, length_keys_of in *. lia.
  - destruct Hseq as [-> _]. destruct Hseq' as [-> _]. split; [|lia].
    f_equal. unfold shuffle. apply shuffle_from_ext; [done|].
    cbn [consumed draws]. intros k Hk. apply Hf. rewrite C.
    rewrite flat_rows_join in Hk. cbn [app] in Hk.
    rewrite length_join_replicate, length_keys_of in Hk. lia.
Qed.

Lemma ordering_needs_only_its_draws_witness :
  exists h h',
    new (options RANDOM 2 (ListArray words)) = Ok h
    /\ new (with_seed (fun k => if (k <? 4)%nat
                                then (Z.of_nat (k mod 3) # 3)%Q else 5 # 7)%Q
              (options RANDOM 2 (ListArray words))) = Ok h'
    /\ _trialSequence h' = _trialSequence h.
Proof.
  eexists.
  match goal with
  | |- exists h', new ?o = Ok ?h /\ new (with_seed ?f _) = _ /\ _ =>
      assert (new o = Ok h) as Hnew by (vm_compute; reflexivity);
      destruct (ordering_needs_only_its_draws o h f Hnew)
        as (_ & h' & Hnew' & E & _)
  end.
  - intros k Hk. cbn in Hk.
    destruct (Nat.ltb_spec k 4) as [|Hge]; [reflexivity | lia].
  - exists h'. split; [exact Hnew|]. split; [exact Hnew' | exact E].
Defined.

(** ** Running the whole iteration *)

Lemma forEach_completes fuel : forall h acc,
  cursor_ok h ->
  Forall (fun row => length row = Z.to_nat (nStim h)) (_trialSequence h) ->
  (length (mjoin (_trialSequence h)) - Z.to_nat (thisN h + 1) < fuel)%nat ->
  let rest := drop (Z.to_nat (thisN h + 1)) (mjoin (_trialSequence h)) in
  exists h',
    forEach fuel record_step h acc
    = Some (Ok (h', acc ++ ((fun i => (Some i, trial_at (trialList h) (Some i)))
                            <$> rest)))
    /\ thisTrial h' = TNull /\ same_setup h h'
    /\ thisN h' = thisN h + 1 + Z.of_nat (length rest)
    /\ nRemaining h' = nRemaining h - 1 - Z.of_nat (length rest).
Proof.
  induction fuel as [|fuel IH]; intros h acc Hok Hrows Hfuel; [lia|].
  pose proof (length_join_same _ _ Hrows) as Hlen.
  destruct (iterator_next_ok h Hok)
    as (h1 & r & E & Hok1 & S1 & N1 & R1 & T1 & D1 & F1 & Y1).
  pose proof Hok as []. pose proof Hok1 as [].
  pose proof S1 as (S1a & S2 & _ & S3 & S4 & S5 & _).
  cbn [forEach]. rewrite E. destruct r as [|v]; cbn zeta.
  - assert (drop (Z.to_nat (thisN h + 1)) (mjoin (_trialSequence h)) = [])
      as ->.
    { apply drop_ge. destruct D1 as [D1 _]. specialize (D1 eq_refl).
      rewrite Hlen, ok_rows0. nia. }
    exists h1. rewrite app_nil_r. cbn.
    split; [done|]. split; [by apply F1|]. split; [done|]. lia.
  - destruct (Y1 v eq_refl) as (row & Hrow & Hidx & Hv & _).
    assert (~ nTotal h <= thisN h1) as Hlt.
    { intros Hle. apply D1 in Hle. discriminate. }
    assert (length row = Z.to_nat (nStim h)) as Hw.
    { eapply Forall_lookup_1 in Hrows; eauto. }
    destruct (lookup_lt_is_Some_2 row (Z.to_nat (thisTrialN h1)))
      as [x Hx]; [lia|].
    assert (thisIndex h1 = Some x) as Hix.
    { rewrite Hidx. unfold lookupZ.
      destruct (Z.ltb_spec (thisTrialN h1) 0); [lia | done]. }
    assert (mjoin (_trialSequence h) !! Z.to_nat (thisN h + 1) = Some x)
      as Hflat.
    { replace (Z.to_nat (thisN h + 1))
        with (Z.to_nat (thisRepN h1) * Z.to_nat (nStim h)
              + Z.to_nat (thisTrialN h1))%nat by nia.
      apply (join_lookup_Some_same_length' _ _ _ _ _ Hrows); [lia|].
      by exists row. }
    destruct (IH h1 (record_step h1 v acc) Hok1)
      as (h' & E' & T' & S' & N' & R').
    { by rewrite S5, S3. }
    { rewrite S5, N1. lia. }
    exists h'. rewrite E'. rewrite S5, S1a, N1 in *. unfold record_step.
    rewrite (drop_S _ _ _ Hflat), fmap_cons, Hix, Hv, Hix.
    replace (Z.to_nat (thisN h + 1 + 1)) with (S (Z.to_nat (thisN h + 1)))
      in * by lia.
    rewrite <- app_assoc. cbn [length app].
    split; [done|]. split; [done|].
    split; [by eapply same_setup_trans|]. lia.
Qed.

(** [forEach] on a handler the constructor returned (nReps >= 0, any
    method) returns, having called back once per cell of the ordering,
    row after row, nTotal times, each time with the trial at that index.
    It leaves the cursor past the end: thisN = nTotal, nRemaining = -1,
    [thisTrial] null, and the finished flag still false. *)
Theorem forEach_runs_the_ordering o h :
  new o = Ok h ->
  0 <= opt_nReps o ->
  forall fuel, (Z.to_nat (nTotal h) < fuel)%nat ->
  exists h',
    forEach fuel record_step h []
    = Some (Ok (h', (fun i => (Some i, trial_at (trialList h) (Some i)))
                    <$> mjoin (_trialSequence h)))
    /\ length (mjoin (_trialSequence h)) = Z.to_nat (nTotal h)
    /\ thisN h' = nTotal h /\ nRemaining h' = -1
    /\ thisTrial h' = TNull /\ _finished h' = VBool false.
Proof.
  intros Hnew Hn fuel Hfuel. pose proof (new_fresh _ _ Hnew) as Hf.
  pose proof (fresh_cursor_ok _ _ Hf) as Hok. destruct Hf.
  destruct (ordering_facts o h Hnew) as (L & F & _).
  assert (Forall (fun row : list Z => length row = Z.to_nat (nStim h))
            (_trialSequence h)) as Hrows.
  { by rewrite fresh_nStim0, Nat2Z.id. }
  assert (length (mjoin (_trialSequence h)) = Z.to_nat (nTotal h)) as Hlen.
  { rewrite (length_join_same _ _ Hrows), L. nia. }
  destruct (forEach_completes fuel h [] Hok Hrows)
    as (h' & E & T & S & N & R); [rewrite Hlen; lia|].
  rewrite fresh_thisN0 in *.
  change (Z.to_nat (-1 + 1)) with 0%nat in *. rewrite drop_0 in *.
  rewrite Hlen in N, R. cbn [app] in E.
  assert (1 <= nStim h) as Hs by (destruct Hok; lia).
  assert (0 <= nTotal h) as Ht by nia.
  exists h'. split; [exact E|]. split; [done|].
  destruct S as (_ & _ & _ & _ & _ & _ & _ & Sf).
  split; [lia|]. split; [lia|]. split; [done|]. congruence.
Qed.

Lemma forEach_runs_the_ordering_witness :
  exists h h',
    new (options RANDOM 2 (ListArray words)) = Ok h
    /\ forEach 7 record_step h []
       = Some (Ok (h', (fun i => (Some i, trial_at (trialList h) (Some i)))
                       <$> mjoin (_trialSequence h)))
    /\ nRemaining h' = -1 /\ _finished h' = VBool false.
Proof.
  eexists.
  match goal with
  | |- exists h', new ?o = Ok ?h /\ _ =>
      assert (new o = Ok h) as Hnew by (vm_compute; reflexivity);
      destruct (forEach_runs_the_ordering o h Hnew ltac:(by compute) 7%nat)
        as (h' & E & _ & _ & R & _ & F); [vm_compute; lia|];
      exists h'; split; [exact Hnew|]; split; [exact E|]; split;
        [exact R | exact F]
  end.
Defined.

Lemma count_in_seq (idx : Z) len : forall start : nat,
  length (filter (fun k : nat => Z.of_nat k = idx) (seq start len))
  = if bool_decide (Z.of_nat start <= idx < Z.of_nat (start + len))
    then 1%nat else 0%nat.
Proof.
  induction len as [|len IH]; intros start.
  - cbn. case_bool_decide; [lia | done].
  - cbn [seq]. rewrite filter_cons. specialize (IH (S start)).
    destruct (decide (Z.of_nat start = idx)) as [Heq|Hne].
    + cbn [length]. rewrite IH.
      repeat case_bool_decide; lia.
    + rewrite IH. repeat case_bool_decide; lia.
Qed.

Lemma length_filter_fmap {A B} (f : A -> B) (P : B -> Prop)
  `{!forall x, Decision (P x)} (l : list A) :
  length (filter P (f <$> l)) = length (filter (fun x => P (f x)) l).
Proof.
  induction l as [|x l IH]; [done|].
  rewrite fmap_cons, !filter_cons. destruct (decide (P (f x))); cbn; lia.
Qed.

Lemma count_in_keys {A} (l : list A) (idx : Z) :
  0 <= idx < Z.of_nat (length l) ->
  length (filter (fun c => c = idx) (keys_of l)) = 1%nat.
Proof.
  intros H. unfold keys_of. rewrite length_filter_fmap, count_in_seq. case_bool_decide; [done | lia].
Qed.

Lemma count_in_copies (ids : list Z) (idx : Z) n :
  length (filter (fun c => c = idx) (mjoin (replicate n ids)))
  = (n * length (filter (fun c => c = idx) ids))%nat.
Proof.
  induction n as [|n IH]; [done|]. cbn [replicate].
  change (mjoin (ids :: replicate n ids)) with (ids ++ mjoin (replicate n ids)).
  rewrite filter_app, length_app, IH. lia.
Qed.

(** Whatever the method, the whole iteration presents every trial of
    the list exactly nReps times. *)
Theorem every_trial_comes_nReps_times o h :
  new o = Ok h ->
  unit_interval (opt_seed o) ->
  0 <= opt_nReps o ->
  exists h' visited,
    forEach (S (Z.to_nat (nTotal h))) record_step h [] = Some (Ok (h', visited))
    /\ forall idx, 0 <= idx < nStim h ->
         length (filter (fun r => r.1 = Some idx) visited)
         = Z.to_nat (nReps h)
         /\ Forall (fun r => r.1 = Some idx ->
                             r.2 = trial_at (trialList h) (Some idx)) visited.
Proof.
  intros Hnew Hu Hn. pose proof (new_fresh _ _ Hnew) as Hf.
  pose proof (fresh_cursor_ok _ _ Hf) as Hok. destruct Hf.
  destruct (ordering_facts o h Hnew) as (L & F & _ & _ & P).
  destruct (P Hu) as [P' _].
  assert (Forall (fun row : list Z => length row = Z.to_nat (nStim h))
            (_trialSequence h)) as Hrows.
  { by rewrite fresh_nStim0, Nat2Z.id. }
  assert (length (mjoin (_trialSequence h)) = Z.to_nat (nTotal h)) as Hlen.
  { rewrite (length_join_same _ _ Hrows), L. nia. }
  destruct (forEach_completes (S (Z.to_nat (nTotal h))) h [] Hok Hrows)
    as (h' & E & _); [rewrite Hlen; lia|].
  rewrite fresh_thisN0 in E. change (Z.to_nat (-1 + 1)) with 0%nat in E.
  rewrite drop_0 in E. cbn [app] in E.
  eexists h', _. split; [exact E|]. intros idx Hidx. split.
  - rewrite length_filter_fmap. cbn [fst].
    rewrite (list_filter_iff _ (fun c => c = idx)).
    2:{ intros c. cbn. split; [by intros [= ->] | by intros ->]. }
    rewrite P', count_in_copies, count_in_keys; lia.
  - apply Forall_fmap, Forall_forall. intros c _. cbn. by intros [= ->].
Qed.

Lemma every_trial_comes_nReps_times_witness :
  exists h h' visited,
    new (with_seed (fun _ => 1 # 3)%Q (options FULL_RANDOM 2 (ListArray words)))
    = Ok h
    /\ forEach 7 record_step h [] = Some (Ok (h', visited))
    /\ length (filter (fun r => r.1 = Some 1) visited) = 2%nat.
Proof.
  eexists.
  match goal with
  | |- exists h' visited, new ?o = Ok ?h /\ _ =>
      assert (new o = Ok h) as Hnew by (vm_compute; reflexivity);
      destruct (every_trial_comes_nReps_times o h Hnew unit_interval_third
                  ltac:(by compute))
        as (h' & visited & E & C);
      assert (0 <= 1 < nStim h) as Hr
        by (vm_compute; split; [intros [=] | reflexivity]);
      destruct (C 1 Hr) as [Hc _];
      exists h', visited; split; [exact Hnew|]; split; [exact E | exact Hc]
  end.
Defined.

(** ** The position counters *)

Lemma advance_position k : forall h hk rs,
  cursor_ok h ->
  advance k h = Ok (hk, rs) ->
  (0 <= thisTrialN h \/ (1 <= k)%nat) ->
  cursor_ok hk /\ 0 <= thisTrialN hk /\ thisN hk = thisN h + Z.of_nat k
  /\ nStim hk = nStim h.
Proof.
  induction k as [|k IH]; intros h hk rs Hok H Hpos; cbn [advance] in H.
  - injection H as <- <-. split; [done|]. split; [|split]; lia.
  - apply bind_Ok in H as ([h1 r] & E1 & H).
    apply bind_Ok in H as ([h2 rs'] & E2 & [= <- <-]).
    destruct (iterator_next_ok h Hok)
      as (h1' & r' & E & Hok1 & (_ & _ & _ & S1 & _) & N1 & _ & P1 & _).
    rewrite E1 in E. injection E as <- <-.
    destruct (IH _ _ _ Hok1 E2) as (Hokk & Pk & Nk & Sk); [by left|].
    split; [done|]. split; [done|]. split; lia.
Qed.

(** Where the cursor is. After k >= 1 steps on a handler that the
    constructor returned, thisN is k - 1, and thisRepN and thisTrialN
    are the quotient and the remainder of thisN by nStim: the
    repetition and the place within it. This holds past the end of the
    iteration too, where the counters keep running. *)
Theorem position_counters o h (k : nat) hk rs :
  new o = Ok h ->
  advance k h = Ok (hk, rs) ->
  (1 <= k)%nat ->
  thisN hk = Z.of_nat k - 1
  /\ thisRepN hk = thisN hk / nStim hk
  /\ thisTrialN hk = thisN hk mod nStim hk
  /\ 1 <= nStim hk.
Proof.
  intros Hnew Hadv Hk.
  pose proof (new_fresh _ _ Hnew) as Hfresh.
  pose proof (fresh_cursor_ok _ _ Hfresh) as Hok.
  destruct (advance_position k h hk rs Hok Hadv) as ([] & P & N & S);
    [by right|].
  destruct Hfresh.
  split; [lia|]. split; [|split; [|lia]].
  - apply (Z.div_unique_pos _ _ _ (thisTrialN hk)); lia.
  - apply (Z.mod_unique_pos _ _ (thisRepN hk)); lia.
Qed.

Lemma position_counters_witness :
  match new (options FULL_RANDOM 2 (ListArray words)) with
  | Ok h =>
      match advance 5 h with
      | Ok (hk, _) => thisN hk = 4 /\ thisRepN hk = 1 /\ thisTrialN hk = 1
      | _ => False
      end
  | _ => False
  end.
Proof.
  assert (match new (options FULL_RANDOM 2 (ListArray words)) with
          | Ok h =>
              match advance 5 h with
              | Ok (hk, _) => nStim hk = 3
              | _ => False
              end
          | _ => False
          end) as Hrun by (vm_compute; reflexivity).
  destruct (new _) as [h| |] eqn:Hnew; [|exact Hrun..].
  destruct (advance 5 h) as [[hk rs]| |] eqn:Hadv; [|exact Hrun..].
  destruct (position_counters _ _ 5%nat _ _ Hnew Hadv) as (N & R & T & _);
    [lia|].
  rewrite R, T, N, Hrun. by vm_compute.
Defined.

(** ** setTrialIndex and the iteration *)

Lemma iterator_next_setTrialIndex i h :
  iterator_next (setTrialIndex i h)
  = match iterator_next h with
    | Ok (h', Done) => Ok (setTrialIndex i h', Done)
    | r => r
    end.
Proof.
  destruct h. unfold iterator_next, setTrialIndex.
  cbn -[Z.add Z.sub Z.eqb Z.geb lookupZ trial_at].
  destruct (_ =? _);
    cbn -[Z.add Z.sub Z.eqb Z.geb lookupZ trial_at];
    (destruct (_ >=? _); [reflexivity|]);
    destruct (lookupZ _ _); reflexivity.
Qed.

(** setTrialIndex does not steer the iteration. The steps that follow
    return what they would have returned without the call, and the first
    of them that yields a trial replaces the index that was set; only
    when every step reports the end is the index still the one set. *)
Theorem setTrialIndex_does_not_steer i k : forall h hk rs,
  advance k h = Ok (hk, rs) ->
  exists hk',
    advance k (setTrialIndex i h) = Ok (hk', rs)
    /\ (Forall (fun r => r = Done) rs -> hk' = setTrialIndex i hk)
    /\ (Exists (fun r => r <> Done) rs -> hk' = hk).
Proof.
  induction k as [|k IH]; intros h hk rs H.
  - injection H as <- <-. exists (setTrialIndex i h).
    split; [done|]. split; [done|]. intros E. inversion E.
  - cbn [advance] in *. rewrite iterator_next_setTrialIndex.
    destruct (iterator_next h) as [[h1 r]| |]; try discriminate.
    cbn [mbind result_bind] in H.
    destruct (advance k h1) as [[h2 rs']| |] eqn:E; try discriminate.
    injection H as <- <-.
    destruct r as [|v].
    + destruct (IH _ _ _ E) as (hk' & E' & F & X).
      exists hk'. cbn [mbind result_bind]. rewrite E'.
      split; [done|]. split.
      * intros HF. apply F. by inversion HF.
      * intros HX. apply X. inversion HX; [done | assumption].
    + exists h2. cbn [mbind result_bind]. rewrite E.
      split; [done|]. split; [|done].
      intros HF. inversion HF. discriminate.
Qed.

Lemma setTrialIndex_does_not_steer_witness :
  exists h hk hk' rs,
    new (options SEQUENTIAL 1 (ListArray words)) = Ok h
    /\ advance 2 h = Ok (hk, rs)
    /\ advance 2 (setTrialIndex (Some 2) h) = Ok (hk', rs)
    /\ hk' = hk
    /\ getTrialIndex hk' = Some 1.
Proof.
  eexists. eexists.
  match goal with
  | |- exists hk' rs, new ?o = Ok ?h /\ advance _ _ = Ok (?hk, _) /\ _ =>
      assert (new o = Ok h) as Hnew by (vm_compute; reflexivity);
      assert (advance 2 h
              = Ok (hk, [Yield (TObj [("word", VStr "a")]);
                         Yield (TObj [("word", VStr "b")])])) as Hadv
        by (vm_compute; reflexivity);
      destruct (setTrialIndex_does_not_steer (Some 2) 2 h hk _ Hadv)
        as (hk' & E & _ & X);
      exists hk'; eexists; split; [exact Hnew|]; split; [exact Hadv|];
      split; [exact E|];
      assert (hk' = hk) as -> by (apply X; left; discriminate);
      split; reflexivity
  end.
Defined.

(** ** getFutureTrial and the sequential iteration *)

Lemma keys_of_lookup {A} (l : list A) (z : Z) :
  0 <= z < Z.of_nat (length l) -> lookupZ (keys_of l) z = Some z.
Proof.
  intros Hz. unfold lookupZ, keys_of.
  destruct (Z.ltb_spec z 0); [lia|].
  rewrite list_lookup_fmap, lookup_seq_lt by lia. cbn. f_equal. lia.
Qed.

Lemma sequential_step h :
  in_sequential_row h ->
  thisTrialN h + 1 < nStim h ->
  exists h',
    iterator_next h
    = Ok (h', Yield (trial_at (trialList h) (Some (thisTrialN h + 1))))
    /\ in_sequential_row h'
    /\ trialList h' = trialList h /\ nStim h' = nStim h
    /\ thisTrialN h' = thisTrialN h + 1
    /\ nRemaining h' = nRemaining h - 1.
Proof.
  intros [Hok Hseq Hn Hrep Hpos Hidx Hcur] Hnext.
  destruct (iterator_next_ok h Hok)
    as (h' & r & E & Hok' & S & _ & R & _ & _ & _ & _).
  pose proof S as (S1 & S2 & _ & S3 & _ & S4 & _).
  revert E. unfold iterator_next. cbn.
  destruct (Z.eqb_spec (thisTrialN h + 1) (nStim h)) as [|_]; [lia|].
  cbn. rewrite Z.geb_leb. destruct (Z.leb_spec (nReps h) (thisRepN h)); [lia|].
  destruct Hok.
  assert (lookupZ (_trialSequence h) (thisRepN h)
          = Some (keys_of (trialList h))) as ->.
  { rewrite Hseq. unfold lookupZ.
    destruct (Z.ltb_spec (thisRepN h) 0); [lia|].
    apply lookup_replicate_2. lia. }
  cbn. rewrite keys_of_lookup by lia.
  intros [= <- <-]. eexists. split; [reflexivity|].
  split; [|by cbn].
  constructor; cbn; try done; try lia.
Qed.

Lemma sequential_run (n : nat) : forall h,
  in_sequential_row h ->
  thisTrialN h + Z.of_nat n < nStim h ->
  exists hn rs,
    advance n h = Ok (hn, rs)
    /\ thisTrial hn
       = trial_at (trialList h) (Some (thisTrialN h + Z.of_nat n))
    /\ nRemaining hn = nRemaining h - Z.of_nat n.
Proof.
  induction n as [|n IH]; intros h Hrow Hn.
  - exists h, []. split; [done|]. destruct Hrow.
    rewrite Z.add_0_r, Z.sub_0_r. done.
  - destruct (sequential_step h Hrow) as (h1 & E & Hrow1 & L & S & T & R);
      [lia|].
    destruct (IH h1 Hrow1) as (hn & rs & En & Tn & Rn); [lia|].
    exists hn, (Yield (trial_at (trialList h) (Some (thisTrialN h + 1))) :: rs).
    cbn [advance]. rewrite E. cbn [mbind result_bind]. rewrite En.
    split; [done|]. rewrite Tn, Rn, L, T, R.
    split; [f_equal; f_equal; lia | lia].
Qed.

(** For the sequential method [getFutureTrial] foresees the iteration
    within a repetition. Let a handler built with that method make any
    number of steps, the last of which yields a trial. Then for every n
    that stays in the current repetition (thisTrialN + n < nStim),
    [getFutureTrial(n)] is the entry thisIndex + n of the trial list,
    and it is the trial that is current after n further steps, which all
    succeed. *)
Theorem getFutureTrial_foresees_sequential o h k h0 rs h1 v (n : nat) :
  new o = Ok h ->
  default RANDOM (opt_method o) = SEQUENTIAL ->
  advance k h = Ok (h0, rs) ->
  iterator_next h0 = Ok (h1, Yield v) ->
  thisTrialN h1 + Z.of_nat n < nStim h1 ->
  exists hn rs',
    advance n h1 = Ok (hn, rs')
    /\ (getFutureTrial h1 (Z.of_nat n)).2 = thisTrial hn
    /\ (getFutureTrial h1 0).2 = v
    /\ nRemaining hn = nRemaining h1 - Z.of_nat n.
Proof.
  intros Hnew Hm Hadv Hstep Hn.
  pose proof (new_fresh _ _ Hnew) as Hfresh.
  pose proof (fresh_cursor_ok _ _ Hfresh) as Hok.
  destruct (new_ordering o h Hnew) as (Hl & Hr & Hseq).
  rewrite Hm in Hseq. cbn zeta in Hseq. destruct Hseq as [Hseq _].
  rewrite <- Hl, <- Hr in Hseq.
  destruct (advance_ok k h Hok)
    as (h0' & rs0 & E0 & Hok0 & (L0 & N0 & _ & S0 & T0 & Q0 & _) & _).
  rewrite Hadv in E0. injection E0 as <- <-.
  destruct (iterator_next_ok h0 Hok0)
    as (h1' & r & E1 & Hok1 & (L1 & N1 & _ & S1 & T1 & Q1 & _)
        & _ & _ & Hpos & _ & _ & Hy).
  rewrite Hstep in E1. injection E1 as <- <-.
  destruct (Hy v eq_refl) as (row & Hrow & Hi & Hv & Ht & _).
  destruct Hfresh. pose proof Hok1 as [].
  rewrite Q0, Hseq in Hrow. apply lookup_replicate in Hrow as [-> Hrep].
  assert (nStim h1 = Z.of_nat (length (trialList h1))) as HnStim
    by congruence.
  rewrite <- L0, <- L1 in Hi.
  rewrite keys_of_lookup in Hi by lia.
  assert (in_sequential_row h1) as Hin.
  { constructor; try done; try lia.
    - rewrite Q1, Q0, Hseq. congruence.
    - rewrite Ht, Hv, Hi. congruence. }
  destruct (sequential_run n h1 Hin Hn) as (hn & rs' & En & Tn & Rn).
  exists hn, rs'. split; [exact En|].
  assert (forall j : nat, thisTrialN h1 + Z.of_nat j < nStim h1 ->
            (getFutureTrial h1 (Z.of_nat j)).2
            = trial_at (trialList h1) (Some (thisTrialN h1 + Z.of_nat j)))
    as Hfuture.
  { intros j Hj. unfold getFutureTrial. rewrite Hi, Z.gtb_ltb.
    destruct (Z.ltb_spec (thisTrialN h1 + Z.of_nat j) 0); [lia|].
    destruct (Z.ltb_spec (nRemaining h1) (Z.of_nat j)); [nia | done]. }
  split; [by rewrite Tn, Hfuture|]. split; [|exact Rn].
  pose proof (Hfuture 0%nat ltac:(lia)) as H0.
  change (Z.of_nat 0) with 0 in H0.
  rewrite H0, Z.add_0_r, Hv, Hi. congruence.
Qed.

Lemma getFutureTrial_foresees_sequential_witness :
  match new (options SEQUENTIAL 2 (ListArray words)) with
  | Ok h =>
      match advance 3 h with
      | Ok (h0, _) =>
          match iterator_next h0 with
          | Ok (h1, Yield v) =>
              exists hn rs',
                advance 2 h1 = Ok (hn, rs')
                /\ (getFutureTrial h1 2).2 = thisTrial hn
          | _ => False
          end
      | _ => False
      end
  | _ => False
  end.
Proof.
  assert (match new (options SEQUENTIAL 2 (ListArray words)) with
          | Ok h =>
              match advance 3 h with
              | Ok (h0, _) =>
                  match iterator_next h0 with
                  | Ok (h1, Yield v) => thisTrialN h1 + 2 < nStim h1
                  | _ => False
                  end
              | _ => False
              end
          | _ => False
          end) as Hrun by (vm_compute; reflexivity).
  destruct (new _) as [h| |] eqn:Hnew; [|exact Hrun..].
  destruct (advance 3 h) as [[h0 rs]| |] eqn:Hadv; [|exact Hrun..].
  destruct (iterator_next h0) as [[h1 [|v]]| |] eqn:Hstep;
    [exact Hrun| |exact Hrun..].
  destruct (getFutureTrial_foresees_sequential _ _ _ _ _ _ _ 2%nat
              Hnew eq_refl Hadv Hstep Hrun) as (hn & rs' & E & F & _).
  by exists hn, rs'.
Defined.

(** ** What a snapshot takes from the current trial *)

Lemma capture_attributes_spec fs ks : forall s0 l0 w0,
  exists s,
    foldl (capture_attribute fs) (s0, l0, w0) ks
    = (s, l0 ++ filter (fun k => in_array k excludedAttributes = false) ks,
       w0 ++ (protected_warning
                <$> filter (fun k => in_array k excludedAttributes = true) ks))
    /\ (ks <> [] ->
        s !! "trialAttributes"
        = Some (VNames
                  (l0 ++ filter (fun k => in_array k excludedAttributes = false)
                           ks)))
    /\ (forall k, k ∈ ks -> in_array k excludedAttributes = false ->
                  k <> "trialAttributes" -> s !! k = Some (field fs k))
    /\ (forall p, p ∉ ks \/ in_array p excludedAttributes = true ->
                  p <> "trialAttributes" -> s !! p = s0 !! p).
Proof.
  induction ks as [|k ks IH]; intros s0 l0 w0.
  - exists s0. cbn. rewrite !app_nil_r. split; [done|]. split; [done|].
    split; [|done]. intros k Hk. by apply elem_of_nil in Hk.
  - cbn [foldl]. unfold capture_attribute at 2.
    destruct (in_array k excludedAttributes) eqn:Ek; cbn [negb].
    + rewrite filter_cons_False by (rewrite Ek; discriminate).
      rewrite filter_cons_True by done.
      destruct (IH (<["trialAttributes" := VNames l0]> s0) l0
                  (w0 ++ [protected_warning k])) as (s & E & T & C & F).
      exists s. unfold protected_warning in E at 1. rewrite E.
      rewrite fmap_cons, <- app_assoc. cbn [app].
      split; [done|]. split; [|split].
      * intros _. destruct ks as [|k' ks]; [|by apply T].
        cbn in E. injection E as <-. cbn. rewrite app_nil_r.
        by rewrite lookup_insert_eq.
      * intros k' Hk' Ek' Ht.
        apply elem_of_cons in Hk' as [->|Hk']; [congruence|]. by apply C.
      * intros p Hp Ht. rewrite F, lookup_insert_ne; [done | done | | done].
        destruct Hp as [Hp|Hp]; [|by right].
        apply not_elem_of_cons in Hp as [_ Hp]. by left.
    + rewrite filter_cons_True by done.
      rewrite filter_cons_False by (rewrite Ek; discriminate).
      destruct (IH (<["trialAttributes" := VNames (l0 ++ [k])]>
                      (<[k := field fs k]> s0)) (l0 ++ [k]) w0)
        as (s & E & T & C & F).
      rewrite <- app_assoc in E, T. cbn [app] in E, T.
      exists s. rewrite E.
      split; [done|]. split; [|split].
      * intros _. destruct ks as [|k' ks]; [|by apply T].
        cbn in E. injection E as <-. cbn.
        by rewrite lookup_insert_eq.
      * intros k' Hk' Ek' Ht.
        destruct (decide (k' ∈ ks)) as [Hin|Hout]; [by apply C|].
        apply elem_of_cons in Hk' as [->|Hk']; [|done].
        rewrite F, lookup_insert_ne, lookup_insert_eq; [done | done | | done].
        by left.
      * intros p Hp Ht.
        assert (p <> k) as Hpk.
        { destruct Hp as [Hp|Hp]; [|congruence].
          by apply not_elem_of_cons in Hp as [Hp _]. }
        rewrite F, !lookup_insert_ne; [done | done | done | | done].
        destruct Hp as [Hp|Hp]; [|by right].
        apply not_elem_of_cons in Hp as [_ Hp]. by left.
Qed.

(** What [getSnapshot] does, for any handler. It changes nothing in the
    handler but the list of snapshots, to which it adds one at the end,
    and the log. A field of the current trial is left out exactly when
    [attribute in excludedAttributes] holds, that is when its name is an
    index of that array of ten (0, ..., 9), [length] or a name arrays
    inherit, with one warning for each; every other field is copied
    under its name, and the names copied are listed in order in
    [trialAttributes]. Every other field of the snapshot is as the
    literal sets it; a current trial without fields (or none:
    [undefined], [null]) leaves the snapshot without [trialAttributes]. *)
Theorem getSnapshot_copies_the_trial h :
  let fs := match getCurrentTrial h with TObj fs => fs | _ => [] end in
  exists s,
    getSnapshot h
    = (set_snapshots (_snapshots h ++ [s])
         (set_warnings
            (warnings h
             ++ (protected_warning
                   <$> filter (fun k => in_array k excludedAttributes = true)
                         fs.*1)) h),
       length (_snapshots h))
    /\ (fs <> [] ->
        get s "trialAttributes"
        = VNames (filter (fun k => in_array k excludedAttributes = false)
                    fs.*1))
    /\ (forall k, k ∈ fs.*1 -> in_array k excludedAttributes = false ->
                  k <> "trialAttributes" -> get s k = field fs k)
    /\ (forall p, p ∉ fs.*1 \/ in_array p excludedAttributes = true ->
                  p <> "trialAttributes" ->
                  get s p = get (snapshot_literal h) p)
    /\ (fs = [] -> s = snapshot_literal h).
Proof.
  intros fs. unfold getSnapshot. fold fs.
  destruct (capture_attributes_spec fs fs.*1 (snapshot_literal h) [] [])
    as (s & E & T & C & F).
  rewrite E. cbn [app]. exists s. split; [reflexivity|].
  split; [|split; [|split]].
  - intros Hne. unfold get. rewrite T; [done|]. by destruct fs.
  - intros k Hk Ek Ht. unfold get. by rewrite C.
  - intros p Hp Ht. unfold get. by rewrite F.
  - intros Hnil. rewrite Hnil in E. cbn in E. by injection E as <-.
Qed.

(** ** Snapshots along a run of calls *)

Lemma fromSnapshot_store x h h' :
  fromSnapshot x h = Ok h' ->
  Forall2 upto_finished (_snapshots h) (_snapshots h').
Proof.
  destruct x as [i|]; intros H.
  2:{ injection H as <-. apply upto_finished_refl. }
  apply fromSnapshot_inv in H
    as (s & l & a & b & c & d & e & f & x & r & _ & _ & _ & _ & _ & _ & _
        & _ & _ & _ & H).
  by apply assign_all_store in H.
Qed.

Lemma perform_store op h h' :
  perform op h = Ok h' ->
  exists kept new,
    _snapshots h' = kept ++ new
    /\ Forall2 upto_finished (_snapshots h) kept
    /\ length new = captures [op].
Proof.
  intros H. destruct op as [| |x|v|i]; cbn [perform captures] in *.
  - apply bind_Ok in H as ([h1 r] & E & [= <-]).
    apply iterator_next_snapshots in E. cbn [fst].
    exists (_snapshots h), []. rewrite app_nil_r.
    split; [done|]. split; [apply upto_finished_refl | done].
  - injection H as <-. destruct (getSnapshot_snapshots h) as (s & E & _).
    exists (_snapshots h), [s].
    split; [done|]. split; [apply upto_finished_refl | done].
  - exists (_snapshots h'), []. rewrite app_nil_r.
    split; [done|]. split; [by eapply fromSnapshot_store | done].
  - injection H as <-. eexists _, []. rewrite app_nil_r.
    split; [reflexivity|]. split; [apply upto_finished_set | done].
  - injection H as <-. exists (_snapshots h), []. rewrite app_nil_r.
    split; [done|]. split; [apply upto_finished_refl | done].
Qed.

Lemma captures_cons op ops :
  captures (op :: ops) = (captures [op] + captures ops)%nat.
Proof. by destruct op. Qed.

Lemma perform_all_store ops : forall h h',
  perform_all ops h = Ok h' ->
  exists kept new,
    _snapshots h' = kept ++ new
    /\ Forall2 upto_finished (_snapshots h) kept
    /\ length new = captures ops.
Proof.
  induction ops as [|op ops IH]; intros h h' H; cbn [perform_all] in H.
  - injection H as <-. exists (_snapshots h), []. rewrite app_nil_r.
    split; [done|]. split; [apply upto_finished_refl | done].
  - apply bind_Ok in H as (h1 & E1 & H).
    destruct (perform_store _ _ _ E1) as (k1 & n1 & S1 & U1 & L1).
    destruct (IH _ _ H) as (k2 & n2 & S2 & U2 & L2).
    rewrite S1 in U2.
    apply Forall2_app_inv_l in U2 as (k2a & k2b & Ua & Ub & ->).
    exists k2a, (k2b ++ n2). rewrite S2, <- app_assoc.
    split; [done|]. split; [by eapply upto_finished_trans|].
    rewrite captures_cons, length_app, <- L1, <- L2.
    by rewrite (Forall2_length _ _ _ Ub).
Qed.















Lemma fromSnapshot_without_attributes h i s a b c d e f x r :
  _snapshots h !! i = Some s ->
  get s "handler" = VHandler ->
  get s "nStim" = VNum a -> get s "nTotal" = VNum b ->
  get s "nRemaining" = VNum c -> get s "thisRepN" = VNum d ->
  get s "thisTrialN" = VNum e -> get s "thisN" = VNum f ->
  get s "thisIndex" = number x -> get s "ran" = VNum r ->
  get s "trialAttributes" = VUndefined ->
  fromSnapshot (Some i) h = Throw TypeError.
Proof.
  intros Hs Hh Ha Hb Hc Hd He Hf Hx Hr Hl. unfold fromSnapshot.
  rewrite Hs, Hh, Ha, Hb, Hc, Hd, He, Hf, Hx, Hr, Hl.
  destruct x; reflexivity.
Qed.

(** ** Handlers whose trials have plain field names *)











(** ** What a run of calls does to the snapshots and to a restore *)







(** ** A snapshot that cannot be restored *)

(** A snapshot captured while the current trial has no field cannot be
    restored. When the trial at thisIndex is [undefined] (as it always
    is for a handler built without a trial list), [null] or an object
    without fields, the snapshot has no [trialAttributes]; whatever is
    called after the capture ([next], [getSnapshot], [fromSnapshot],
    the setter [finished], [setTrialIndex], without a throw),
    [fromSnapshot] of that snapshot throws a TypeError. *)
Theorem restore_throws_without_attributes h ops hm :
  match getCurrentTrial h with TObj (_ :: _) => False | _ => True end ->
  perform_all ops (getSnapshot h).1 = Ok hm ->
  snapshot_field (getSnapshot h).1 (getSnapshot h).2 "trialAttributes"
  = VUndefined
  /\ fromSnapshot (Some (getSnapshot h).2) hm = Throw TypeError.
Proof.
  intros Hcur Hrun.
  assert (_snapshots (getSnapshot h).1 = _snapshots h ++ [snapshot_literal h]
          /\ (getSnapshot h).2 = length (_snapshots h)) as [S I].
  { unfold getSnapshot.
    destruct (getCurrentTrial h) as [| |[|field fs]]; done. }
  assert (_snapshots (getSnapshot h).1 !! (getSnapshot h).2
          = Some (snapshot_literal h)) as Hi.
  { rewrite S, I. by apply list_lookup_middle. }
  split.
  { unfold snapshot_field. rewrite Hi. by vm_compute. }
  destruct (perform_all_store _ _ _ Hrun) as (kept & new & S' & U & _).
  destruct (Forall2_lookup_l _ _ _ _ _ U Hi) as (s' & Hi' & Hup).
  assert (_snapshots hm !! (getSnapshot h).2 = Some s') as Him.
  { rewrite S'. by apply lookup_app_l_Some. }
  destruct (snapshot_literal_fields h)
    as (L0 & L1 & L2 & L3 & L4 & L5 & L6 & L7 & L8 & _).
  apply (fromSnapshot_without_attributes hm _ s' (nStim h) (nTotal h)
           (nRemaining h) (thisRepN h) (thisTrialN h) (thisN h) (thisIndex h)
           (ran h) Him);
    rewrite Hup by discriminate; unfold get;
    rewrite ?L0, ?L1, ?L2, ?L3, ?L4, ?L5, ?L6, ?L7, ?L8; reflexivity.
Qed.

Lemma restore_throws_without_attributes_witness :
  match after 1 (options RANDOM 2 ListUndefined) with
  | Some h =>
      match perform_all [DoNext; DoSetFinished (VBool true)]
              (getSnapshot h).1 with
      | Ok hm => fromSnapshot (Some (getSnapshot h).2) hm = Throw TypeError
      | _ => False
      end
  | None => False
  end.
Proof.
  set (ops := [DoNext; DoSetFinished (VBool true)]).
  assert (match after 1 (options RANDOM 2 ListUndefined) with
          | Some h =>
              getCurrentTrial h = TUndefined
              /\ match perform_all ops (getSnapshot h).1 with
                 | Ok _ => True
                 | _ => False
                 end
          | None => False
          end) as Hrun by (vm_compute; split; [reflexivity | exact I]).
  destruct (after 1 _) as [h|]; [|exact Hrun].
  destruct Hrun as [Hcur Hrun].
  destruct (perform_all ops (getSnapshot h).1) as [hm| |] eqn:E;
    [|exact Hrun..].
  apply (restore_throws_without_attributes h ops hm); [|exact E].
  by rewrite Hcur.
Defined.

(** ** The trial a snapshot remembers *)

Lemma advance_frame m : forall h hm rs,
  advance m h = Ok (hm, rs) ->
  _snapshots hm = _snapshots h /\ nTotal hm = nTotal h
  /\ trialList hm = trialList h.
Proof.
  induction m as [|m IH]; intros h hm rs H; cbn [advance] in H.
  - by injection H as <- <-.
  - apply bind_Ok in H as ([h1 r] & E1 & H).
    apply bind_Ok in H as ([h2 rs'] & E2 & [= <- <-]).
    apply iterator_next_counts in E1 as (_ & _ & T1 & L1 & S1).
    destruct (IH _ _ _ E2) as (S2 & T2 & L2).
    split; [congruence|]. split; congruence.
Qed.

Lemma snapshot_literal_getCurrentTrial h :
  snapshot_literal h !! "getCurrentTrial"
  = Some (VFun (GetCurrentTrialAt (thisIndex h))).
Proof. vm_compute. reflexivity. Qed.

(** [getTrial] agrees with the plain lookup once nTotal is no less than
    the length of the list. *)
Lemma getTrial_lookup h index :
  Z.of_nat (length (trialList h)) <= nTotal h ->
  getTrial h index = (h, trial_at (trialList h) (Some index)).
Proof.
  intros Hle. unfold getTrial. rewrite Z.gtb_ltb.
  destruct (Z.ltb_spec index 0) as [Hneg|Hpos]; cbn [orb].
  - f_equal. symmetry. apply trial_at_undefined. by left.
  - destruct (Z.ltb_spec (nTotal h) index) as [Hfar|Hnear]; [|done].
    f_equal. symmetry. apply trial_at_undefined. right; left. lia.
Qed.

(** A snapshot remembers its trial. Let a handler that the constructor
    returned make any number of steps, the last of which yields a trial,
    and let a snapshot be captured there. If the trial has no field
    named [getCurrentTrial], then after any number of further steps the
    snapshot's [getCurrentTrial()] still returns that trial, and it
    changes nothing in the handler. *)
Theorem snapshot_remembers_its_trial o h k h0 rs h1 v m hm rs' :
  new o = Ok h ->
  advance k h = Ok (h0, rs) ->
  iterator_next h0 = Ok (h1, Yield v) ->
  (forall fs, v = TObj fs -> "getCurrentTrial" ∉ fs.*1) ->
  advance m (getSnapshot h1).1 = Ok (hm, rs') ->
  call_getCurrentTrial (getSnapshot h1).2 hm = Ok (hm, v).
Proof.
  intros Hnew Hadv Hstep Hname Hlater.
  pose proof (new_fresh _ _ Hnew) as Hfresh.
  pose proof (fresh_cursor_ok _ _ Hfresh) as Hok.
  destruct (ordering_facts o h Hnew) as (_ & Hrows & _).
  destruct (advance_ok k h Hok)
    as (h0' & rs0 & E0 & Hok0 & (L0 & N0 & _ & S0 & T0 & Q0 & _) & _).
  rewrite Hadv in E0. injection E0 as <- <-.
  destruct (iterator_next_ok h0 Hok0)
    as (h1' & r & E1 & Hok1 & (L1 & N1 & _ & S1 & T1 & Q1 & _)
        & _ & _ & Hpos & _ & _ & Hy).
  rewrite Hstep in E1. injection E1 as <- <-.
  destruct (Hy v eq_refl) as (row & Hrow & Hi & Hv & _).
  (* the index of the step is a number *)
  assert (length row = length (trialList h)) as Hlen.
  { rewrite Q0 in Hrow. rewrite Forall_forall in Hrows. apply Hrows.
    by eapply list_elem_of_lookup_2. }
  destruct Hfresh. destruct Hok1.
  assert (exists i, thisIndex h1 = Some i) as [i Hsome].
  { rewrite Hi. unfold lookupZ.
    destruct (Z.ltb_spec (thisTrialN h1) 0); [lia|].
    destruct (row !! Z.to_nat (thisTrialN h1)) as [i|] eqn:Ei; [by exists i|].
    apply lookup_ge_None in Ei. lia. }
  (* at least one repetition, so nTotal is no less than nStim *)
  assert (1 <= nReps h1) as Hreps.
  { apply lookup_lt_Some in Hrow. rewrite <- Q1 in Hrow. lia. }
  (* the snapshot's method is the one of the literal *)
  assert (getCurrentTrial h1 = v) as Hcur.
  { unfold getCurrentTrial. by rewrite L1. }
  destruct (advance_frame _ _ _ _ Hlater) as (Ss & Ts & Ls).
  unfold call_getCurrentTrial, snapshot_field. rewrite Ss.
  unfold getSnapshot in *. rewrite Hcur in *.
  set (fs := match v with TObj fs => fs | _ => [] end) in *.
  destruct (capture_attributes_spec fs fs.*1 (snapshot_literal h1) [] [])
    as (s & E & _ & _ & F).
  rewrite E in *. cbn [fst snd set_snapshots set_warnings _snapshots] in *.
  rewrite list_lookup_middle by done.
  unfold get. rewrite F, snapshot_literal_getCurrentTrial; [|left|done].
  2:{ unfold fs. destruct v as [| |fs']; [apply not_elem_of_nil..|].
      by apply Hname. }
  rewrite Hsome. cbn [default id from_option].
  rewrite getTrial_lookup.
  - rewrite Ls. cbn [trialList set_snapshots set_warnings].
    by rewrite Hv, Hsome, L1.
  - rewrite Ls, Ts. cbn [trialList nTotal set_snapshots set_warnings].
    assert (nStim h1 = Z.of_nat (length (trialList h1))) as <-
      by (rewrite L1, L0; congruence).
    nia.
Qed.

Lemma snapshot_remembers_its_trial_witness :
  match new (options RANDOM 2 (ListArray words)) with
  | Ok h =>
      match advance 1 h with
      | Ok (h0, _) =>
          match iterator_next h0 with
          | Ok (h1, Yield v) =>
              match advance 3 (getSnapshot h1).1 with
              | Ok (hm, _) =>
                  call_getCurrentTrial (getSnapshot h1).2 hm = Ok (hm, v)
              | _ => False
              end
          | _ => False
          end
      | _ => False
      end
  | _ => False
  end.
Proof.
  assert (match new (options RANDOM 2 (ListArray words)) with
          | Ok h =>
              match advance 1 h with
              | Ok (h0, _) =>
                  match iterator_next h0 with
                  | Ok (h1, Yield v) =>
                      (exists w, v = TObj [("word", VStr w)])
                      /\ match advance 3 (getSnapshot h1).1 with
                         | Ok _ => True
                         | _ => False
                         end
                  | _ => False
                  end
              | _ => False
              end
          | _ => False
          end) as Hrun by (vm_compute; split; [by eexists | exact I]).
  destruct (new _) as [h| |] eqn:Hnew; [|exact Hrun..].
  destruct (advance 1 h) as [[h0 rs]| |] eqn:Hadv; [|exact Hrun..].
  destruct (iterator_next h0) as [[h1 [|v]]| |] eqn:Hstep; [exact Hrun| |exact Hrun..].
  destruct Hrun as [[w ->] Hrun].
  destruct (advance 3 (getSnapshot h1).1) as [[hm rs']| |] eqn:Hlater;
    [|exact Hrun..].
  apply (snapshot_remembers_its_trial _ _ _ _ _ _ _ 3%nat _ rs'
           Hnew Hadv Hstep); [|exact Hlater].
  intros fs [= <-]. cbn. intros H.
  apply list_elem_of_singleton in H. discriminate.
Defined.

(** ** Lookups on a handler that the constructor returned *)

Lemma constructed_then_advanced o h k hk rs :
  new o = Ok h ->
  advance k h = Ok (hk, rs) ->
  prepared_list o <> []
  /\ trialList hk = prepared_list o
  /\ nStim hk = Z.of_nat (length (prepared_list o))
  /\ nTotal hk = opt_nReps o * Z.of_nat (length (prepared_list o)).
Proof.
  intros Hnew Hadv.
  pose proof (new_fresh _ _ Hnew) as Hfresh.
  pose proof (fresh_cursor_ok _ _ Hfresh) as Hok.
  destruct (advance_ok k h Hok)
    as (hk' & rs' & E & _ & (L & _ & _ & S & T & _) & _).
  rewrite Hadv in E. injection E as <- <-.
  destruct Hfresh.
  split; [congruence|]. split; [congruence|].
  split; [congruence|]. rewrite T, fresh_nTotal0, fresh_nStim0. congruence.
Qed.

(** [getTrial] on a handler that the constructor returned, at any point
    of the iteration. It changes nothing. With at least one repetition
    it is the plain lookup in the trial list: the bound nTotal never
    hides an entry. With nReps = 0 only the index 0 is answered, and
    with a negative nReps (which the two random methods accept) no index
    is. *)
Theorem getTrial_of_a_constructed_handler o h k hk rs index :
  new o = Ok h ->
  advance k h = Ok (hk, rs) ->
  (getTrial hk index).1 = hk
  /\ (1 <= opt_nReps o ->
      (getTrial hk index).2 = trial_at (prepared_list o) (Some index))
  /\ (opt_nReps o = 0 ->
      (getTrial hk index).2
      = if index =? 0 then trial_at (prepared_list o) (Some 0)
        else TUndefined)
  /\ (opt_nReps o < 0 -> (getTrial hk index).2 = TUndefined).
Proof.
  intros Hnew Hadv.
  destruct (constructed_then_advanced o h k hk rs Hnew Hadv)
    as (Hne & L & S & T).
  assert (1 <= Z.of_nat (length (prepared_list o))) as Hlen
    by (destruct (prepared_list o); [done | cbn; lia]).
  split; [unfold getTrial; by destruct (_ || _)|]. split; [|split].
  - intros Hn. rewrite getTrial_lookup; [by rewrite L|]. rewrite L, T. nia.
  - intros Hn. unfold getTrial. rewrite T, Hn, Z.gtb_ltb, L.
    destruct (Z.eqb_spec index 0) as [->|Hi]; [done|].
    destruct (Z.ltb_spec index 0); [done|].
    destruct (Z.ltb_spec (0 * Z.of_nat (length (prepared_list o))) index);
      [done | lia].
  - intros Hn. unfold getTrial. rewrite T, Z.gtb_ltb.
    destruct (Z.ltb_spec index 0); [done|].
    destruct (Z.ltb_spec (opt_nReps o * Z.of_nat (length (prepared_list o)))
                index); [done | nia].
Qed.

Lemma getTrial_of_a_constructed_handler_witness :
  match new (options RANDOM (-1) (ListArray words)) with
  | Ok h =>
      match advance 2 h with
      | Ok (hk, _) => (getTrial hk 0).2 = TUndefined
      | _ => False
      end
  | _ => False
  end.
Proof.
  assert (match new (options RANDOM (-1) (ListArray words)) with
          | Ok h => match advance 2 h with Ok _ => True | _ => False end
          | _ => False
          end) as Hrun by (vm_compute; exact I).
  destruct (new _) as [h| |] eqn:Hnew; [|exact Hrun..].
  destruct (advance 2 h) as [[hk rs]| |] eqn:Hadv; [|exact Hrun..].
  destruct (getTrial_of_a_constructed_handler _ _ _ _ _ 0 Hnew Hadv)
    as (_ & _ & _ & Hneg).
  apply Hneg. reflexivity.
Defined.

(** [getAttributes] on a handler that the constructor returned, at any
    point of the iteration: the names of the fields of the first trial
    of the list, and no name when that trial is [undefined] or [null],
    as it is for a handler built without a trial list. *)
Theorem getAttributes_of_a_constructed_handler o h k hk rs :
  new o = Ok h ->
  advance k h = Ok (hk, rs) ->
  getAttributes hk
  = match prepared_list o with
    | TObj fs :: _ => fs.*1
    | _ => []
    end
  /\ (opt_trialList o = ListUndefined \/ opt_trialList o = ListArray [] ->
      getAttributes hk = []).
Proof.
  intros Hnew Hadv.
  destruct (constructed_then_advanced o h k hk rs Hnew Hadv)
    as (Hne & L & S & T).
  assert (getAttributes hk
          = match prepared_list o with
            | TObj fs :: _ => fs.*1
            | _ => []
            end) as Hattrs.
  { unfold getAttributes. rewrite S, L.
    destruct (prepared_list o) as [|tr l]; [done|]. cbn.
    by destruct tr. }
  split; [exact Hattrs|].
  rewrite Hattrs. unfold prepared_list. by intros [-> | ->].
Qed.

Lemma getAttributes_of_a_constructed_handler_witness :
  match new (options FULL_RANDOM 2 (ListArray words)) with
  | Ok h =>
      match advance 4 h with
      | Ok (hk, _) => getAttributes hk = ["word"]
      | _ => False
      end
  | _ => False
  end.
Proof.
  assert (match new (options FULL_RANDOM 2 (ListArray words)) with
          | Ok h => match advance 4 h with Ok _ => True | _ => False end
          | _ => False
          end) as Hrun by (vm_compute; exact I).
  destruct (new _) as [h| |] eqn:Hnew; [|exact Hrun..].
  destruct (advance 4 h) as [[hk rs]| |] eqn:Hadv; [|exact Hrun..].
  destruct (getAttributes_of_a_constructed_handler _ _ _ _ _ Hnew Hadv)
    as [Hattrs _].
  exact Hattrs.
Defined.
